(** * sourcebit-target-next: the page/props reduction and the cache client

    A shallow embedding of [src/index.js]: the path interpolation
    ([interpolatePagePath]), the two reducers ([reducePropsMap],
    [reducePages]), the snapshot built by [reduceAndTransformData], the
    producer entry points ([bootstrap], [transform]), the consumer client
    ([SourcebitDataClient]) and the live-update watcher
    ([startStaticPropsWatcher]).

    JavaScript values are a small inductive type; objects are finite maps
    from property names to values, arrays are lists, and a thrown exception
    is the [Err] case of a result type. *)

From Stdlib Require Import ZArith Ascii String List Lia.
From stdpp Require Import base option list strings gmap fin_maps pretty.
From Equations Require Import Equations.
From Equations.Prop Require Import Logic.

Set Warnings "-register-all".

(** ** JavaScript values *)

(** Numbers are the integers among the JS numbers ([NaN], fractions and
    infinities are not represented), strings are byte strings.  Functions
    are not values of this type: the predicates and custom reducers of the
    configuration are Rocq functions. *)
Inductive value : Type :=
  | VUndefined
  | VNull
  | VBool (b : bool)
  | VNum (z : Z)
  | VStr (s : string)
  | VArr (elems : list value)
  | VObj (fields : gmap string value).

(** What a [throw] carries.  [NoValueInField p1 page] is the [Error] built
    in the replacer of [interpolatePagePath], whose message is
    [page has no value in field '<p1>', page: <util.inspect(page)>];
    [TypeError] is the engine's error on a property read of [undefined] or
    [null], or on a call of something that is not a function;
    [CacheFileNotFound path n] is the [Error] of [getData], whose message
    names the cache file and the number of retries; [ReadError] stands for a
    failure of [fse.readJson], [SocketNotOpen] for the [Error] of a
    [ws.send] on a socket that is not open, and [WriteError] for a failure
    of [fse.remove], [fse.ensureFile] or [fse.writeJson]. *)
Inductive error : Type :=
  | NoValueInField (p1 : string) (page : value)
  | TypeError
  | CacheFileNotFound (path : string) (numOfRetries : nat)
  | ReadError
  | SocketNotOpen
  | WriteError.

Inductive result (A : Type) : Type :=
  | Ok (a : A)
  | Err (e : error).
Arguments Ok {A} a.
Arguments Err {A} e.

#[global] Instance result_ret : MRet result := fun A a => Ok a.
#[global] Instance result_bind : MBind result := fun A B k r =>
  match r with
  | Ok a => k a
  | Err e => Err e
  end.

(** [x == null]. *)
Definition is_nullish (v : value) : bool :=
  match v with
  | VUndefined | VNull => true
  | _ => false
  end.

(** The truthiness used by [!fieldValue], [if (source)] and [||]. *)
Definition truthy (v : value) : bool :=
  match v with
  | VUndefined | VNull => false
  | VBool b => b
  | VNum z => negb (z =? 0)%Z
  | VStr s => negb (String.eqb s EmptyString)
  | VArr _ | VObj _ => true
  end.

(** ** Strings *)

Definition slash : ascii := "/"%char.
Definition lbrace : ascii := "{"%char.
Definition rbrace : ascii := "}"%char.

(** [_.startsWith(s, c)] for a one-character target. *)
Definition startsWith (s : string) (c : ascii) : bool :=
  match s with
  | String a _ => Ascii.eqb a c
  | EmptyString => false
  end.

Fixpoint endsWith (s : string) (c : ascii) : bool :=
  match s with
  | String a EmptyString => Ascii.eqb a c
  | String _ s' => endsWith s' c
  | EmptyString => false
  end.

Fixpoint contains (c : ascii) (s : string) : bool :=
  match s with
  | EmptyString => false
  | String a s' => Ascii.eqb a c || contains c s'
  end.

(** A run of [n] copies of [c]. *)
Fixpoint repeat_char (c : ascii) (n : nat) : string :=
  match n with
  | O => EmptyString
  | S n' => String c (repeat_char c n')
  end.

Fixpoint concat_strings (l : list string) : string :=
  match l with
  | [] => EmptyString
  | s :: l' => s +:+ concat_strings l'
  end.

(** ** lodash *)

(** [baseToString]: strings as they are, arrays element by element joined
    with commas, everything else by [value + '']. *)
Fixpoint baseToString (v : value) : string :=
  match v with
  | VUndefined => "undefined"
  | VNull => "null"
  | VBool true => "true"
  | VBool false => "false"
  | VNum z => pretty z
  | VStr s => s
  | VArr elems => String.concat "," (List.map baseToString elems)
  | VObj _ => "[object Object]"
  end.

(** [_.toString]. *)
Definition toString (v : value) : string :=
  if is_nullish v then EmptyString else baseToString v.

(** [charsStartIndex] of [_.trim] for the one-character set [chars]: the
    leading run of [c] is dropped. *)
Fixpoint trimStart (c : ascii) (s : string) : string :=
  match s with
  | String a s' => if Ascii.eqb a c then trimStart c s' else s
  | EmptyString => EmptyString
  end.

(** [charsEndIndex]: the trailing run of [c] is dropped. *)
Fixpoint trimEnd (c : ascii) (s : string) : string :=
  match s with
  | String a s' =>
      let kept := trimEnd c s' in
      if Ascii.eqb a c && String.eqb kept EmptyString then EmptyString else String a kept
  | EmptyString => EmptyString
  end.

(** [_.trim(string, chars)] with a one-character [chars]. *)
Definition trim (v : value) (c : ascii) : string :=
  trimEnd c (trimStart c (toString v)).

(** The own enumerable string-keyed properties of a value: the fields of
    an object, the elements of an array and the characters of a string
    under their decimal indices, nothing for the other primitives. *)
Definition index_props {A} (f : A -> value) (l : list A) : gmap string value :=
  list_to_map (imap (fun i x => (pretty i, f x)) l).

Definition char_value (a : ascii) : value := VStr (String a EmptyString).

Definition own_props (v : value) : gmap string value :=
  match v with
  | VObj fields => fields
  | VArr elems => index_props id elems
  | VStr s => index_props char_value (list_ascii_of_string s)
  | _ => ∅
  end.

(** [object[key]] on a value that is neither [undefined] nor [null].  Own
    properties only (with the [length] of arrays and strings): what a
    value inherits from its prototype, methods for instance, is not
    represented. *)
Definition member (object : value) (key : string) : value :=
  match object with
  | VArr elems =>
      if String.eqb key "length" then VNum (Z.of_nat (length elems))
      else default VUndefined (own_props object !! key)
  | VStr s =>
      if String.eqb key "length" then VNum (Z.of_nat (String.length s))
      else default VUndefined (own_props object !! key)
  | _ => default VUndefined (own_props object !! key)
  end.

(** [key in Object(object)], on own properties. *)
Definition has_member (object : value) (key : string) : bool :=
  match object with
  | VArr _ | VStr _ =>
      String.eqb key "length" || bool_decide (is_Some (own_props object !! key))
  | _ => bool_decide (is_Some (own_props object !! key))
  end.

(** [object.key] as the engine evaluates it: a [TypeError] on [undefined]
    and [null]. *)
Definition read_property (object : value) (key : string) : result value :=
  if is_nullish object then Err TypeError else Ok (member object key).

(** *** Property paths *)

Definition dot : ascii := "."%char.
Definition lbracket : ascii := "["%char.
Definition rbracket : ascii := "]"%char.
Definition backslash : ascii := "\"%char.
Definition dquote : ascii := "034"%char.
Definition squote : ascii := "'"%char.
Definition newline : ascii := "010"%char.
Definition carriage_return : ascii := "013"%char.

Definition is_digit (a : ascii) : bool :=
  let n := nat_of_ascii a in (48 <=? n)%nat && (n <=? 57)%nat.

(** The longest prefix of [s] whose characters satisfy [p], and what
    follows it. *)
Fixpoint span (p : ascii -> bool) (s : string) : string * string :=
  match s with
  | String a s' =>
      if p a then let '(run, rest) := span p s' in (String a run, rest)
      else (EmptyString, s)
  | EmptyString => (EmptyString, EmptyString)
  end.

(** What follows the first occurrence of [c] in [s]. *)
Fixpoint after_first (c : ascii) (s : string) : option string :=
  match s with
  | String a s' => if Ascii.eqb a c then Some s' else after_first c s'
  | EmptyString => None
  end.

(** [reIsDeepProp.test(s)]: the expression looks for a dot, or for an
    opening bracket followed by a closing one with no bracket in between
    (or with a quoted text in between).  It finds a match exactly when [s]
    has a dot, or an opening bracket with a closing one somewhere after
    it. *)
Definition reIsDeepProp_test (s : string) : bool :=
  contains dot s ||
  match after_first lbracket s with
  | Some rest => contains rbracket rest
  | None => false
  end.

(** [isKey(path, object)] for a string [path]. *)
Definition isKey (path : string) (object : value) : bool :=
  negb (reIsDeepProp_test path) || (negb (is_nullish object) && has_member object path).

(** [rePropName] has three alternatives: a run of characters other than
    the dot and the brackets; a bracketed number or quoted text; and an
    empty match in front of a separator (a dot or an empty pair of
    brackets) that is followed by another separator or by the end.

    The second alternative, first form: an optional minus sign, digits, an
    optional fraction and the closing bracket, on the text [s] after the
    opening bracket.  The result is the captured number and the length of
    the whole match. *)
Definition match_number (s : string) : option (string * nat) :=
  let '(sign, s1) :=
    match s with
    | String a s' => if Ascii.eqb a "-" then (String a EmptyString, s') else (EmptyString, s)
    | EmptyString => (EmptyString, s)
    end in
  let '(int_part, s2) := span is_digit s1 in
  if String.eqb int_part EmptyString then None else
  let whole := sign +:+ int_part in
  match s2 with
  | String a s3 =>
      if Ascii.eqb a rbracket then Some (whole, 2 + String.length whole)%nat
      else if Ascii.eqb a dot then
        let '(frac, s4) := span is_digit s3 in
        if String.eqb frac EmptyString then None else
        let number := whole +:+ String dot frac in
        if startsWith s4 rbracket then Some (number, 2 + String.length number)%nat
        else None
      else None
  | EmptyString => None
  end.

(** The items of a quoted key up to the closing quote [q] followed by a
    closing bracket.  An item is a character other than [q] and the
    backslash, or a backslash with any character but a line terminator
    after it.  The result is the text between the quotes. *)
Fixpoint quoted_body (q : ascii) (s : string) : option string :=
  match s with
  | String a s' =>
      if Ascii.eqb a q then
        if startsWith s' rbracket then Some EmptyString else None
      else if Ascii.eqb a backslash then
        match s' with
        | String b s'' =>
            if Ascii.eqb b newline || Ascii.eqb b carriage_return then None
            else option_map (fun body => String a (String b body)) (quoted_body q s'')
        | EmptyString => None
        end
      else option_map (String a) (quoted_body q s')
  | EmptyString => None
  end.

(** [subString.replace(reEscapeChar, '$1')]: a backslash is dropped, and
    a pair of backslashes becomes one. *)
Fixpoint unescape (s : string) : string :=
  match s with
  | String a s' =>
      if Ascii.eqb a backslash then
        match s' with
        | String b s'' =>
            if Ascii.eqb b backslash then String backslash (unescape s'')
            else unescape s'
        | EmptyString => EmptyString
        end
      else String a (unescape s')
  | EmptyString => EmptyString
  end.

(** The second alternative, second form: a text between two double or two
    single quotes and the closing bracket, on the text after the opening
    bracket. *)
Definition match_quoted (s : string) : option (string * nat) :=
  match s with
  | String q s' =>
      if Ascii.eqb q dquote || Ascii.eqb q squote then
        match quoted_body q s' with
        | Some body => Some (unescape body, 4 + String.length body)%nat
        | None => None
        end
      else None
  | EmptyString => None
  end.

(** A separator at the head of [s]: what follows it. *)
Definition after_separator (s : string) : option string :=
  match s with
  | String a s' =>
      if Ascii.eqb a dot then Some s'
      else if Ascii.eqb a lbracket && startsWith s' rbracket then
        match s' with String _ s'' => Some s'' | EmptyString => None end
      else None
  | EmptyString => None
  end.

(** The third alternative, the lookahead. *)
Definition empty_key_ahead (s : string) : bool :=
  match after_separator s with
  | Some rest =>
      match rest with
      | EmptyString => true
      | _ => bool_decide (is_Some (after_separator rest))
      end
  | None => false
  end.

Definition is_key_char (a : ascii) : bool :=
  negb (Ascii.eqb a dot || Ascii.eqb a lbracket || Ascii.eqb a rbracket).

(** One attempt of [rePropName] at the head of [s]: the key it pushes and
    the length of the match, [None] when no alternative matches there. *)
Definition rePropName_at (s : string) : option (string * nat) :=
  match s with
  | String a s' =>
      if is_key_char a then
        let '(run, _) := span is_key_char s in Some (run, String.length run)
      else
        match (if Ascii.eqb a lbracket then
                 match match_number s' with
                 | Some m => Some m
                 | None => match_quoted s'
                 end
               else None) with
        | Some m => Some m
        | None => if empty_key_ahead s then Some (EmptyString, 0%nat) else None
        end
  | EmptyString => None
  end.

(** The global scan of [string.replace(rePropName, ...)]: [skip] counts the
    characters still covered by the previous match; after an empty match
    the scan resumes one character further. *)
Fixpoint rePropName_scan (skip : nat) (s : string) : list string :=
  match s with
  | String _ s' =>
      match skip with
      | S n => rePropName_scan n s'
      | O =>
          match rePropName_at s with
          | Some (key, len) => key :: rePropName_scan (len - 1) s'
          | None => rePropName_scan 0 s'
          end
      end
  | EmptyString => []
  end.

(** [stringToPath]. *)
Definition stringToPath (s : string) : list string :=
  (if startsWith s dot then [EmptyString] else []) ++ rePropName_scan 0 s.

(** [castPath(path, object)] for a string [path]. *)
Definition castPath (path : string) (object : value) : list string :=
  if isKey path object then [path] else stringToPath path.

(** The loop of [baseGet]: it stops at the first [undefined] or [null]. *)
Fixpoint baseGet_loop (object : value) (keys : list string) : value :=
  match keys with
  | [] => object
  | key :: keys' =>
      if is_nullish object then VUndefined
      else baseGet_loop (member object key) keys'
  end.

Definition baseGet (object : value) (path : string) : value :=
  match castPath path object with
  | [] => VUndefined
  | keys => baseGet_loop object keys
  end.

(** [_.get(object, path)], without a default value. *)
Definition get (object : value) (path : string) : value :=
  if is_nullish object then VUndefined else baseGet object path.

(** [_.find(collection, predicate)] on an array. *)
Definition find (data : list value) (predicate : value -> bool) : value :=
  default VUndefined (List.find predicate data).

(** [_.filter(collection, predicate)] on an array. *)
Definition filter (data : list value) (predicate : value -> bool) : list value :=
  List.filter predicate data.

(** [_.assign(object, source)]: the own properties of a truthy [source]
    are written over those of [Object(object)].  The target is an object,
    [undefined] or [null] at every call of the program. *)
Definition assign (object source : value) : value :=
  VObj (if truthy source then own_props source ∪ own_props object else own_props object).

(** ** interpolatePagePath *)

(** What [String.prototype.replace] sees in the template for the global
    expression [/{([\s\S]+?)}/g]: the characters it copies and the matches,
    each with its capture [p1]. *)
Inductive segment : Type :=
  | Chr (a : ascii)
  | Hole (p1 : string).

(** The text of [s] before the first occurrence of [c]. *)
Fixpoint before_first (c : ascii) (s : string) : option string :=
  match s with
  | String a s' =>
      if Ascii.eqb a c then Some EmptyString
      else option_map (String a) (before_first c s')
  | EmptyString => None
  end.

(** One attempt of the expression at the head of [s]: an opening brace,
    one character of any kind, then as few characters as possible up to a
    closing brace.  The result is the capture. *)
Definition placeholder_at (s : string) : option string :=
  match s with
  | String a (String b s') =>
      if Ascii.eqb a lbrace then option_map (String b) (before_first rbrace s')
      else None
  | _ => None
  end.

(** The matches are collected from left to right; the scan resumes after
    each match ([skip] counts the characters it still covers), and a
    character at which the expression does not match is copied. *)
Fixpoint template_scan (skip : nat) (s : string) : list segment :=
  match s with
  | String a s' =>
      match skip with
      | S n => template_scan n s'
      | O =>
          match placeholder_at s with
          | Some p1 => Hole p1 :: template_scan (S (String.length p1)) s'
          | None => Chr a :: template_scan 0 s'
          end
      end
  | EmptyString => []
  end.

Definition segments (pathTemplate : string) : list segment :=
  template_scan 0 pathTemplate.

(** The captures among segments, from left to right, and the copied
    text. *)
Definition holes (segs : list segment) : list string :=
  omap (fun seg => match seg with Hole p1 => Some p1 | Chr _ => None end) segs.

Fixpoint copied (segs : list segment) : string :=
  match segs with
  | [] => EmptyString
  | Chr a :: segs' => String a (copied segs')
  | Hole _ :: segs' => copied segs'
  end.

(** The placeholders of a template, and its text outside of them. *)
Definition placeholders (pathTemplate : string) : list string :=
  holes (segments pathTemplate).

Definition literal_text (pathTemplate : string) : string :=
  copied (segments pathTemplate).

(** The replacer function: [(match, p1) => { ... }]. *)
Definition replacer (page : value) (p1 : string) : result string :=
  let fieldValue := get page p1 in
  if negb (truthy fieldValue) then Err (NoValueInField p1 page)
  else Ok (trim fieldValue slash).

(** The replacer is called on the matches in order; the first exception
    ends the replacement. *)
Fixpoint replace_segments (page : value) (segs : list segment) : result string :=
  match segs with
  | [] => Ok EmptyString
  | Chr a :: segs' =>
      rest ← replace_segments page segs'; Ok (String a rest)
  | Hole p1 :: segs' =>
      text ← replacer page p1;
      rest ← replace_segments page segs';
      Ok (text +:+ rest)
  end.

Definition interpolatePagePath (pathTemplate : string) (page : value) : result string :=
  urlPath ← replace_segments page (segments pathTemplate);
  Ok (if negb (startsWith urlPath slash) then String slash urlPath else urlPath).

(** What a segment contributes to the result when every field has a
    value: the character itself, or the trimmed text of the field. *)
Definition substituted (page : value) (seg : segment) : string :=
  match seg with
  | Chr a => String a EmptyString
  | Hole p1 => trim (get page p1) slash
  end.

(** ** reducePropsMap *)

(** An entry of a declarative props map, [{ single, predicate }]; [single]
    is the truthiness of [_.get(propDef, 'single')]. *)
Record PropDefinition : Type := {
  propDef_single : bool;
  propDef_predicate : value -> bool
}.

(** The [commonProps] option and the [props] of a page type: a function of
    the records, or a map from prop names to definitions (an absent map
    reduces like the empty one). *)
Inductive PropsMap : Type :=
  | PropsFunction (f : list value -> value)
  | PropsObject (defs : gmap string PropDefinition).

(** The callback of the [_.reduce] over the props map. *)
Definition reduceProp (data : list value)
    (propName : string) (propDef : PropDefinition) (accum : value) : value :=
  if propDef_single propDef then
    assign (assign (VObj ∅) accum) (VObj {[ propName := find data (propDef_predicate propDef) ]})
  else
    assign (assign (VObj ∅) accum)
           (VObj {[ propName := VArr (filter data (propDef_predicate propDef)) ]}).

Definition reducePropsMap (propsMap : PropsMap) (data : list value) : value :=
  match propsMap with
  | PropsFunction f => f data
  | PropsObject defs => map_fold (reduceProp data) (VObj ∅) defs
  end.

(** ** reducePages *)

(** An entry of the declarative [pages] option, [{ path, predicate, props }];
    [path] is optional. *)
Record PageTypeDefinition : Type := {
  pageTypeDef_path : option string;
  pageTypeDef_predicate : value -> bool;
  pageTypeDef_props : PropsMap
}.

Inductive PagesOption : Type :=
  | PagesFunction (f : list value -> list value)
  | PagesList (defs : list PageTypeDefinition).

(** [pageTypeDef.path || '/{slug}']: the empty string is falsy too. *)
Definition pathTemplate_of (pageTypeDef : PageTypeDefinition) : string :=
  match pageTypeDef_path pageTypeDef with
  | Some p => if String.eqb p EmptyString then "/{slug}" else p
  | None => "/{slug}"
  end.

(** [_.concat(array, v)]: an array [v] is flattened one level. *)
Definition concat (array : list value) (v : value) : list value :=
  match v with
  | VArr elems => array ++ elems
  | _ => array ++ [v]
  end.

(** [_.reduce] over an array with a callback that can throw. *)
Fixpoint reduce {A B} (f : B -> A -> result B) (l : list A) (accum : B) : result B :=
  match l with
  | [] => Ok accum
  | x :: l' => accum' ← f accum x; reduce f l' accum'
  end.

(** [interpolatePagePath(item.path, item.page)] on the properties of an
    item: the call of [replace] needs a string. *)
Definition interpolate_item (item : value) : result string :=
  pathTemplate ← read_property item "path";
  page ← read_property item "page";
  match pathTemplate with
  | VStr s => interpolatePagePath s page
  | _ => Err TypeError
  end.

(** The callback of the function mode.  [_.assign] writes the path into
    the item itself; the items are taken to be distinct objects, so that
    no later item sees the write. *)
Definition reduceItem (accum : list value) (item : value) : result (list value) :=
  match interpolate_item item with
  | Err e => (* catch (e) { return accum; } *) Ok accum
  | Ok urlPath => Ok (concat accum (assign item (VObj {[ "path" := VStr urlPath ]})))
  end.

(** The object literal [{ path: urlPath, page: page, ...props }]. *)
Definition pageDescriptor (urlPath : string) (page props : value) : value :=
  VObj (own_props props ∪ {[ "path" := VStr urlPath; "page" := page ]}).

(** The callback of the inner [_.reduce] of the declarative mode. *)
Definition reducePage (pageTypeDef : PageTypeDefinition) (data : list value)
    (accum : list value) (page : value) : result (list value) :=
  match interpolatePagePath (pathTemplate_of pageTypeDef) page with
  | Err e => (* catch (e) { return accum; } *) Ok accum
  | Ok urlPath =>
      Ok (concat accum
            (pageDescriptor urlPath page (reducePropsMap (pageTypeDef_props pageTypeDef) data)))
  end.

(** The callback of the outer [_.reduce]. *)
Definition reducePageType (data : list value)
    (accum : list value) (pageTypeDef : PageTypeDefinition) : result (list value) :=
  let pages := filter data (pageTypeDef_predicate pageTypeDef) in
  reduce (reducePage pageTypeDef data) pages accum.

Definition reducePages (pages : PagesOption) (data : list value) : result (list value) :=
  match pages with
  | PagesFunction f =>
      let pageObjects := f data in
      reduce reduceItem pageObjects []
  | PagesList defs => reduce (reducePageType data) defs []
  end.

(** What one record adds to the pages of a page type, and what one item
    adds in the function mode: an entry, or nothing when the interpolation
    throws. *)
Definition page_entries (pageTypeDef : PageTypeDefinition) (data : list value)
    (page : value) : list value :=
  match interpolatePagePath (pathTemplate_of pageTypeDef) page with
  | Ok urlPath =>
      [pageDescriptor urlPath page (reducePropsMap (pageTypeDef_props pageTypeDef) data)]
  | Err _ => []
  end.

Definition item_entries (item : value) : list value :=
  match interpolate_item item with
  | Ok urlPath => [assign item (VObj {[ "path" := VStr urlPath ]})]
  | Err _ => []
  end.

Definition succeeds {A} (r : result A) : bool :=
  match r with
  | Ok _ => true
  | Err _ => false
  end.


(** ** reduceAndTransformData *)

Definition reduceAndTransformData (data : list value)
    (commonProps : PropsMap) (pages : PagesOption) : result value :=
  let props := reducePropsMap commonProps data in
  pageList ← reducePages pages data;
  Ok (VObj {[ "props" := props; "pages" := VArr pageList ]}).

(** ** The cache file and the plugin's entry points *)

Definition LIVE_UPDATE_EVENT_NAME : string := "props_changed".
Definition DEFAULT_LIVE_UPDATE_PORT : value := VNum 8088.

(** [path.join(dir, name)] for a normalized absolute [dir] and a file
    name. *)
Definition path_join (dir name : string) : string :=
  if endsWith dir slash then dir +:+ name else dir +:+ String slash name.

(** The plugin options; an absent option is [None].  [commonProps] and
    [pages] are kept as they are reduced: absent ones reduce like
    [PropsObject ∅] and [PagesList []]. *)
Record Options : Type := {
  cacheFilePath : option string;
  liveUpdateWsPort : option value;
  liveUpdateWsClientPort : option value;
  liveUpdate : option value;
  commonProps : PropsMap;
  pages : PagesOption
}.

(** The live-update side of the producer process: the sockets whose
    listener is registered on [eventEmitter] for [LIVE_UPDATE_EVENT_NAME],
    in the order of registration; the sockets that have closed; the calls
    of [ws.send], oldest first; and those of them that were made on an
    open socket, the messages that went out. *)
Record Watcher : Type := {
  listeners : list nat;
  closed : list nat;
  calls : list (nat * string);
  delivered : list (nat * string)
}.

(** The producer's world: the files by resolved path, whether the
    WebSocket server was started, and the watcher. *)
Record World : Type := {
  files : gmap string string;
  serving : bool;
  watcher : Watcher
}.

(** What the WebSocket server and [eventEmitter] can be asked to do. *)
Inductive event : Type :=
  | Connection (ws : nat)
  | Message (ws : nat) (message : string)
  | Close (ws : nat)
  | Emit.

(** What the cache client does to the outside, in order. *)
Inductive effect : Type :=
  | PathExists (path : string) (found : bool)
  | SetTimeout (ms : nat)
  | ReadJson (path : string).

(** The parsed cache file as the client reads it: [data.props], and the
    objects of the array [data.pages]. *)
Record Snapshot : Type := {
  props : value;
  snapshot_pages : list (gmap string value)
}.

(** [_.get(options, key, defaultValue)] for an option that is absent
    ([None]) or present with a value: the default stands in for an absent
    option and for one whose value is [undefined]. *)
Definition option_or (o : option value) (defaultValue : value) : value :=
  match o with
  | Some VUndefined | None => defaultValue
  | Some v => v
  end.

(** What the file system answers to the calls the producer makes on a
    path: [None] when the call succeeds, the exception otherwise. *)
Record Disk : Type := {
  remove_error : string -> option error;
  ensureFile_error : string -> option error;
  writeJson_error : string -> option error
}.

(** The exception of the two calls that write the cache file,
    [fse.ensureFile] and then [fse.writeJson], if one of them throws. *)
Definition write_error (disk : Disk) (path : string) : option error :=
  match ensureFile_error disk path with
  | Some e => Some e
  | None => writeJson_error disk path
  end.



(** A successful [fse.ensureFile(path)]: a file that is not there is
    created empty. *)
Definition fse_ensureFile (path : string) (fs : gmap string string) : gmap string string :=
  match fs !! path with
  | Some _ => fs
  | None => <[ path := EmptyString ]> fs
  end.

(** The sockets of the [connection] events, in order. *)
Definition connections (evs : list event) : list nat :=
  omap (fun ev => match ev with Connection ws => Some ws | _ => None end) evs.

(** The wake message for a socket, and whether a socket is open. *)
Definition wake (ws : nat) : nat * string := (ws, LIVE_UPDATE_EVENT_NAME).

Definition is_open (w : Watcher) (ws : nat) : bool :=
  negb (bool_decide (ws ∈ closed w)).

(** The time spent in timers, in milliseconds. *)
Fixpoint waited (effects : list effect) : nat :=
  match effects with
  | [] => 0
  | SetTimeout ms :: effects' => ms + waited effects'
  | _ :: effects' => waited effects'
  end.

Section Host.
(** [process.cwd()]. *)
Variable cwd : string.
(** [process.env.NODE_ENV === 'development']. *)
Variable isDev : bool.
(** The text [fse.writeJson] writes for a value. *)
Variable JSON_stringify : value -> string.
(** What [fse.readJson] makes of the text of a file. *)
Variable JSON_parse : string -> result Snapshot.
(** What [ws.send] does on a socket that is not open: it returns
    ([None]) or throws; this depends on the version of [ws]. *)
Variable send_after_close : option error.
(** What the file system answers to the producer. *)
Variable disk : Disk.

Definition DEFAULT_FILE_CACHE_PATH : string :=
  path_join cwd ".sourcebit-nextjs-cache.json".

(** *** startStaticPropsWatcher *)

(** [ws.send(message)]. *)
Definition ws_send (w : Watcher) (ws : nat) (message : string) : Watcher * option error :=
  if bool_decide (ws ∈ closed w) then
    ({| listeners := listeners w; closed := closed w;
        calls := calls w ++ [(ws, message)];
        delivered := delivered w |}, send_after_close)
  else
    ({| listeners := listeners w; closed := closed w;
        calls := calls w ++ [(ws, message)];
        delivered := delivered w ++ [(ws, message)] |}, None).

(** The handler of the server's [connection] event.  The handlers it
    installs on the socket for [message] and [close] only log; the
    listener it registers on [eventEmitter] sends the event name. *)
Definition on_connection (w : Watcher) (ws : nat) : Watcher * option error :=
  ws_send {| listeners := listeners w ++ [ws]; closed := closed w;
             calls := calls w; delivered := delivered w |} ws "hello".

(** The socket's [close] event: the socket is closed from now on, and
    the handler only logs. *)
Definition on_close (w : Watcher) (ws : nat) : Watcher :=
  {| listeners := listeners w; closed := closed w ++ [ws];
     calls := calls w; delivered := delivered w |}.

(** [eventEmitter.emit]: the listeners are called in order, and the
    first exception ends the call. *)
Fixpoint call_listeners (w : Watcher) (sockets : list nat) : Watcher * option error :=
  match sockets with
  | [] => (w, None)
  | ws :: sockets' =>
      match ws_send w ws LIVE_UPDATE_EVENT_NAME with
      | (w', None) => call_listeners w' sockets'
      | (w', Some e) => (w', Some e)
      end
  end.

Definition emit (w : Watcher) : Watcher * option error :=
  call_listeners w (listeners w).

Definition watcher_step (w : Watcher) (ev : event) : Watcher :=
  match ev with
  | Connection ws => fst (on_connection w ws)
  | Message _ _ => w
  | Close ws => on_close w ws
  | Emit => fst (emit w)
  end.

Definition watcher_run (w : Watcher) (evs : list event) : Watcher :=
  fold_left watcher_step evs w.

Definition no_watcher : Watcher :=
  {| listeners := []; closed := []; calls := []; delivered := [] |}.


(** *** bootstrap *)

(** [_.get(options, 'cacheFilePath', DEFAULT_FILE_CACHE_PATH)].  Files
    are told apart by their path: a configured path is taken as resolved. *)
Definition cacheFilePath_of (options : Options) : string :=
  default DEFAULT_FILE_CACHE_PATH (cacheFilePath options).

(** [_.get(options, 'liveUpdate', isDev)]. *)
Definition liveUpdate_of (options : Options) : value :=
  option_or (liveUpdate options) (VBool isDev).


(** *** transform *)

(** [_.set(transformedData, 'props.<key>', v)] on the object built by
    [reduceAndTransformData]: a [props] that is a primitive is replaced by
    a new object.  On an array the property is set on the array itself,
    where [JSON.stringify] does not see it: the array stays as it is.

    [_.set] writes into the props object itself.  A declarative
    [commonProps] reduces to an object of its own; the object a custom
    [commonProps] function returns is taken to be one of its own too: were
    it one of the records, the write would show wherever that record
    occurs, which values without identity do not tell. *)
Definition set_in_props (transformedData : value) (key : string) (v : value) : value :=
  let props :=
    match member transformedData "props" with
    | VObj fields => VObj (<[ key := v ]> fields)
    | VArr elems => VArr elems
    | _ => VObj {[ key := v ]}
    end in
  VObj (<[ "props" := props ]> (own_props transformedData)).

(** [_.get(options, 'liveUpdateWsClientPort',
    _.get(options, 'liveUpdateWsPort', DEFAULT_LIVE_UPDATE_PORT))]. *)
Definition wsPort_of (options : Options) : value :=
  option_or (liveUpdateWsClientPort options)
            (option_or (liveUpdateWsPort options) DEFAULT_LIVE_UPDATE_PORT).

(** The outcome is the world after the call together with the value the
    promise resolves to, or the exception it rejects with.  When
    [fse.ensureFile] or [fse.writeJson] rejects, so does [transform],
    before the event is emitted; a [writeJson] that rejects is taken to
    do so before it writes, and leaves the file as [ensureFile] left it.

    The objects the custom functions of the options return are taken to
    be their own: [_.assign] and [_.set] write into them in place, and a
    result that is one of the records, or occurs twice, would show these
    writes in the records [transform] returns and wherever else it
    occurs in the snapshot.  With a declarative [commonProps] and a
    declarative [pages] no record is written to. *)
Definition transform (options : Options) (objects : list value) (w : World)
    : World * result (list value) :=
  let cacheFilePath := cacheFilePath_of options in
  let wsPort := wsPort_of options in
  let liveUpdate := liveUpdate_of options in
  match reduceAndTransformData objects (commonProps options) (pages options) with
  | Err e => (w, Err e)
  | Ok transformedData =>
      let transformedData :=
        if truthy liveUpdate then
          set_in_props
            (set_in_props
               (set_in_props transformedData "liveUpdate" liveUpdate)
               "liveUpdateWsPort" wsPort)
            "liveUpdateEventName" (VStr LIVE_UPDATE_EVENT_NAME)
        else transformedData in
      match ensureFile_error disk cacheFilePath with
      | Some e => (w, Err e)
      | None =>
          let ensured := fse_ensureFile cacheFilePath (files w) in
          match writeJson_error disk cacheFilePath with
          | Some e =>
              ({| files := ensured; serving := serving w; watcher := watcher w |}, Err e)
          | None =>
              let written := <[ cacheFilePath := JSON_stringify transformedData ]> ensured in
              if truthy liveUpdate then
                let '(watcher', thrown) := emit (watcher w) in
                ({| files := written; serving := serving w; watcher := watcher' |},
                 match thrown with Some e => Err e | None => Ok objects end)
              else
                ({| files := written; serving := serving w; watcher := watcher w |},
                 Ok objects)
          end
      end
  end.

(** *** SourcebitDataClient *)

Definition retryDelay : nat := 500.
Definition maxNumOfRetries : nat := 10.

(** [fse.readJson(path)] on a file system. *)
Definition readJson (fs : gmap string string) (path : string) : result Snapshot :=
  match fs !! path with
  | Some text => JSON_parse text
  | None => Err ReadError
  end.

(** The file systems the client sees: [fs_at k] is the one at its check
    number [k] (the first check is number 0), and at the read that
    follows a successful check.

    [checkPathExists] with [numOfRetries] as the closure holds it: the
    effects of this check and of those scheduled after it, and how the
    promise [cacheFileExists] settles: resolved at that check, or
    rejected. *)
Equations? checkPathExists (fs_at : nat -> gmap string string) (numOfRetries : nat)
    : list effect * result nat by wf (maxNumOfRetries - numOfRetries) lt :=
  checkPathExists fs_at numOfRetries
    with inspect (bool_decide (is_Some (fs_at numOfRetries !! DEFAULT_FILE_CACHE_PATH))) := {
    | exist _ false absent
        with inspect (numOfRetries <? maxNumOfRetries)%nat := {
        | exist _ true retry :=
            let '(later, settled) := checkPathExists fs_at (numOfRetries + 1) in
            (PathExists DEFAULT_FILE_CACHE_PATH false :: SetTimeout retryDelay :: later,
             settled);
        | exist _ false exhausted :=
            ([PathExists DEFAULT_FILE_CACHE_PATH false],
             Err (CacheFileNotFound DEFAULT_FILE_CACHE_PATH numOfRetries)) };
    | exist _ true present :=
        ([PathExists DEFAULT_FILE_CACHE_PATH true], Ok numOfRetries) }.
Proof. apply Nat.ltb_lt in retry. lia. Qed.

(** [k] checks that do not find the file, each followed by a timer. *)
Fixpoint polls (k : nat) : list effect :=
  match k with
  | O => []
  | S k' =>
      PathExists DEFAULT_FILE_CACHE_PATH false :: SetTimeout retryDelay :: polls k'
  end.

(** [getData]: what it does, and how its promise settles. *)
Definition getData (fs_at : nat -> gmap string string) : list effect * result Snapshot :=
  let '(checks, cacheFileExists) := checkPathExists fs_at 0 in
  match cacheFileExists with
  | Err e => (checks, Err e)
  | Ok k =>
      (checks ++ [ReadJson DEFAULT_FILE_CACHE_PATH],
       readJson (fs_at k) DEFAULT_FILE_CACHE_PATH)
  end.

(** [(page) => page.path]. *)
Definition page_path (page : gmap string value) : value :=
  default VUndefined (page !! "path").

Definition getStaticPaths (fs_at : nat -> gmap string string) : result (list value) :=
  data ← snd (getData fs_at);
  Ok (List.map page_path (snapshot_pages data)).

(** [_.matches({path: pagePath})] for a string [pagePath]. *)
Definition matches_path (pagePath : string) (page : gmap string value) : bool :=
  match page !! "path" with
  | Some (VStr s) => String.eqb s pagePath
  | _ => false
  end.

Definition getPropsFromCMSDataForPagePath (data : Snapshot) (pagePath : string) : value :=
  let page :=
    match List.find (matches_path pagePath) (snapshot_pages data) with
    | Some fields => VObj fields
    | None => VUndefined
    end in
  assign page (props data).

Definition getStaticPropsForPageAtPath (fs_at : nat -> gmap string string)
    (pagePath : string) : result value :=
  data ← snd (getData fs_at);
  Ok (getPropsFromCMSDataForPagePath data pagePath).
End Host.

(** ** Sample data *)

Module Sample.
Definition post : value :=
  VObj {[ "slug" := VStr "hello-world";
          "category" := VObj {[ "name" := VStr "/news/" ]};
          "tags" := VArr [VStr "a"; VStr "b"];
          "a.b" := VNum 7 ]}.

(** A record with a slug and one without. *)
Definition about : value := VObj {[ "slug" := VStr "about" ]}.
Definition settings : value := VObj {[ "title" := VStr "Settings" ]}.

Definition any_record (r : value) : bool := true.

(** Every record is a page at ['/{slug}'], and each page gets the first
    record of the data as its prop [first]. *)
Definition page_with_first : PageTypeDefinition :=
  {| pageTypeDef_path := None;
     pageTypeDef_predicate := any_record;
     pageTypeDef_props :=
       PropsObject {[ "first" := {| propDef_single := true;
                                    propDef_predicate := any_record |} ]} |}.

  (** Every record is a page at ['/{category.name}/{slug}']. *)
Definition page_by_category : PageTypeDefinition :=
  {| pageTypeDef_path := Some "/{category.name}/{slug}"%string;
     pageTypeDef_predicate := any_record;
     pageTypeDef_props := PropsObject ∅ |}.

(** The same with a prop called [path]. *)
Definition page_with_path_prop : PageTypeDefinition :=
  {| pageTypeDef_path := None;
     pageTypeDef_predicate := any_record;
     pageTypeDef_props :=
       PropsObject {[ "path" := {| propDef_single := true;
                                   propDef_predicate := any_record |} ]} |}.

(** Custom page functions: one item per record, with and without the
    first record. *)
Definition item_of (r : value) : value :=
  VObj {[ "path" := VStr "/docs/{slug}"; "page" := r ]}.
Definition all_items (data : list value) : list value := List.map item_of data.
End Sample.

Module SampleSnapshot.
Definition home : gmap string value :=
  {[ "path" := VStr "/"; "page" := VObj {[ "title" := VStr "Home" ]};
     "title" := VStr "A" ]}.
Definition blog : gmap string value :=
  {[ "path" := VStr "/blog"; "page" := VObj {[ "title" := VStr "Blog" ]} ]}.
Definition blog_again : gmap string value :=
  {[ "path" := VStr "/blog"; "page" := VObj {[ "title" := VStr "Archive" ]} ]}.

Definition data : Snapshot :=
  {| props := VObj {[ "title" := VStr "B" ]};
     snapshot_pages := [home; blog; blog_again] |}.

(** A working directory, a parser that reads [data] from any text, and
    file systems in which the cache file appears at the third check. *)
Definition cwd : string := "/site".
Definition parse (text : string) : result Snapshot := Ok data.
Definition stringify (v : value) : string := "{}".
Definition appears_at_third_check (k : nat) : gmap string string :=
  if (k <? 2)%nat then ∅ else {[ DEFAULT_FILE_CACHE_PATH cwd := "{}"%string ]}.
Definition never_appears (k : nat) : gmap string string := ∅.

(** A file system on which every call of the producer succeeds, and one
    on which no file can be created. *)
Definition sound_disk : Disk :=
  {| remove_error := λ _, None;
     ensureFile_error := λ _, None;
     writeJson_error := λ _, None |}.
Definition read_only_disk : Disk :=
  {| remove_error := λ _, None;
     ensureFile_error := λ _, Some WriteError;
     writeJson_error := λ _, None |}.

(** A configuration with a cache file of its own, and a producer that
    has not written anything yet. *)
Definition options : Options :=
  {| cacheFilePath := Some "/site/.cache/pages.json"%string;
     liveUpdateWsPort := None;
     liveUpdateWsClientPort := None;
     liveUpdate := Some (VBool true);
     commonProps := PropsObject ∅;
     pages := PagesList [Sample.page_with_first] |}.
Definition fresh_world : World :=
  {| files := ∅; serving := false; watcher := no_watcher |}.
End SampleSnapshot.

(** ** What the traces are measured by *)


(** What holds of a watcher after any events: every call of [ws.send]
    carries the greeting or the event name and goes to a socket with a
    registered listener, the greeting was sent once per listener, and the
    messages that went out are among the calls, in order. *)
Definition watcher_invariant (w : Watcher) : Prop :=
  Forall (λ m, (snd m = "hello"%string ∨ snd m = LIVE_UPDATE_EVENT_NAME)
               ∧ fst m ∈ listeners w) (calls w)
  ∧ length (List.filter (λ m, String.eqb (snd m) "hello") (calls w))
    = length (listeners w)
  ∧ sublist (delivered w) (calls w).

Module SampleProducer.
(** Configurations with the default cache file, with and without live
    updates. *)
Definition quiet_options : Options :=
  {| cacheFilePath := None;
     liveUpdateWsPort := None;
     liveUpdateWsClientPort := None;
     liveUpdate := Some (VBool false);
     commonProps := PropsObject ∅;
     pages := PagesList [Sample.page_with_first] |}.
Definition live_options : Options :=
  {| cacheFilePath := None;
     liveUpdateWsPort := Some (VNum 9000);
     liveUpdateWsClientPort := None;
     liveUpdate := Some (VBool true);
     commonProps := PropsObject ∅;
     pages := PagesList [Sample.page_with_first] |}.


Definition world_after_close : World :=
  {| files := ∅;
     serving := true;
     watcher := watcher_run None no_watcher [Connection 1; Connection 2; Close 2] |}.
End SampleProducer.

(** * Properties *)

(** ** The model on examples *)

Module PathExamples.
Import Sample.

Example stringToPath_dots : stringToPath "a..b." = ["a"; EmptyString; "b"; EmptyString].
Proof. reflexivity. Qed.
Example stringToPath_leading_dot : stringToPath ".a" = [EmptyString; "a"].
Proof. reflexivity. Qed.
Example stringToPath_index : stringToPath "a[0].b[-1.5]['c.d']" = ["a"; "0"; "b"; "-1.5"; "c.d"].
Proof. reflexivity. Qed.
Example stringToPath_plain_bracket : stringToPath "a[b]" = ["a"; "b"].
Proof. reflexivity. Qed.
Example stringToPath_empty_brackets : stringToPath "a[][]" = ["a"; EmptyString; EmptyString].
Proof. reflexivity. Qed.
Example get_slug : get post "slug" = VStr "hello-world".
Proof. vm_compute. reflexivity. Qed.
Example get_nested : get post "category.name" = VStr "/news/".
Proof. vm_compute. reflexivity. Qed.
Example get_element : get post "tags[1]" = VStr "b".
Proof. vm_compute. reflexivity. Qed.
Example get_length : get post "tags.length" = VNum 2.
Proof. vm_compute. reflexivity. Qed.
Example get_whole_key : get post "a.b" = VNum 7.
Proof. vm_compute. reflexivity. Qed.
Example get_missing : get post "category.title.x" = VUndefined.
Proof. vm_compute. reflexivity. Qed.
Example trim_slashes : trim (VStr "//a/b/") slash = "a/b".
Proof. reflexivity. Qed.
Example trim_number : trim (VNum (-12)) slash = "-12".
Proof. vm_compute. reflexivity. Qed.
Example trim_array : trim (VArr [VStr "/a"; VNull; VNum 3]) slash = "a,null,3".
Proof. vm_compute. reflexivity. Qed.
End PathExamples.

Module InterpolateExamples.
Import Sample.

Example segments_posts :
  segments "/p/{slug}" = [Chr "/"; Chr "p"; Chr "/"; Hole "slug"].
Proof. reflexivity. Qed.
Example segments_lazy : segments "{{a}}" = [Hole "{a"; Chr "}"].
Proof. reflexivity. Qed.
Example segments_empty_braces : segments "{}" = [Chr "{"; Chr "}"].
Proof. reflexivity. Qed.
Example segments_brace_capture : segments "{}}x{b" = [Hole "}"; Chr "x"; Chr "{"; Chr "b"].
Proof. reflexivity. Qed.

Example posts_hello_world :
  interpolatePagePath "/posts/{slug}" (VObj {[ "slug" := VStr "hello-world" ]})
  = Ok "/posts/hello-world".
Proof. vm_compute. reflexivity. Qed.
Example category_slug :
  interpolatePagePath "{category.name}/{slug}" post = Ok "/news/hello-world".
Proof. vm_compute. reflexivity. Qed.
Example category_missing :
  interpolatePagePath "/{category.name}/{slug}" (VObj {[ "slug" := VStr "a" ]})
  = Err (NoValueInField "category.name" (VObj {[ "slug" := VStr "a" ]})).
Proof. vm_compute. reflexivity. Qed.
End InterpolateExamples.

(** ** Strings and trimming *)

Lemma append_nil_l (t : string) : EmptyString +:+ t = t.
Proof. reflexivity. Qed.

Lemma append_cons a (s t : string) : String a s +:+ t = String a (s +:+ t).
Proof. reflexivity. Qed.

Ltac string_simpl :=
  repeat (rewrite ?append_nil_l, ?append_cons in *; simpl in *).

Lemma contains_app c s1 s2 :
  contains c (s1 +:+ s2) = contains c s1 || contains c s2.
Proof.
  induction s1 as [|a s1 IH]; string_simpl; [done|].
  by rewrite IH, orb_assoc.
Qed.

Lemma contains_concat_strings c l :
  contains c (concat_strings l) = existsb (contains c) l.
Proof.
  induction l as [|s l IH]; simpl; [done|].
  by rewrite contains_app, IH.
Qed.

Lemma append_empty_r (s : string) : s +:+ EmptyString = s.
Proof. induction s as [|a s IH]; string_simpl; [done|]. by rewrite IH. Qed.

Lemma append_assoc (s1 s2 s3 : string) : (s1 +:+ s2) +:+ s3 = s1 +:+ s2 +:+ s3.
Proof. induction s1 as [|a s1 IH]; string_simpl; [done|]. by rewrite IH. Qed.

Lemma trimStart_spec c s :
  ∃ n, s = repeat_char c n +:+ trimStart c s ∧ startsWith (trimStart c s) c = false.
Proof.
  induction s as [|a s (n & IHs & IHc)]; simpl.
  - by exists 0%nat.
  - destruct (Ascii.eqb a c) eqn:E.
    + apply Ascii.eqb_eq in E as ->. exists (S n). simpl.
      rewrite append_cons. by rewrite <- IHs.
    + exists 0%nat. simpl. by rewrite E.
Qed.

Lemma trimEnd_spec c s :
  ∃ m, s = trimEnd c s +:+ repeat_char c m ∧ endsWith (trimEnd c s) c = false.
Proof.
  induction s as [|a s (m & IHs & IHc)]; simpl.
  - by exists 0%nat.
  - destruct (Ascii.eqb a c) eqn:E; simpl.
    + destruct (String.eqb (trimEnd c s) EmptyString) eqn:E'.
      * apply String.eqb_eq in E'. apply Ascii.eqb_eq in E as ->.
        exists (S m). simpl. rewrite append_nil_l. rewrite IHs at 1.
        by rewrite E', append_nil_l.
      * exists m. rewrite append_cons, <- IHs. split; [done|].
        simpl. destruct (trimEnd c s); [done|]. exact IHc.
    + exists m. rewrite append_cons, <- IHs. split; [done|].
      simpl. destruct (trimEnd c s); [exact E | exact IHc].
Qed.

Lemma trimEnd_startsWith c s :
  startsWith s c = false → startsWith (trimEnd c s) c = false.
Proof.
  destruct s as [|a s]; simpl; [done|]. intros E. rewrite E. simpl. exact E.
Qed.

Lemma trim_spec v c :
  ∃ n m, toString v = repeat_char c n +:+ trim v c +:+ repeat_char c m
         ∧ startsWith (trim v c) c = false ∧ endsWith (trim v c) c = false.
Proof.
  unfold trim.
  destruct (trimStart_spec c (toString v)) as (n & Hn & Hs).
  destruct (trimEnd_spec c (trimStart c (toString v))) as (m & Hm & He).
  exists n, m. split; [|split].
  - by rewrite <- Hm.
  - by apply trimEnd_startsWith.
  - done.
Qed.

(** ** interpolatePagePath *)

Lemma result_bind_ok {A B} (a : A) (k : A → result B) : (Ok a ≫= k) = k a.
Proof. reflexivity. Qed.

Lemma result_bind_err {A B} e (k : A → result B) : (Err e ≫= k) = Err e.
Proof. reflexivity. Qed.

Lemma replacer_truthy page p1 :
  truthy (get page p1) = true → replacer page p1 = Ok (trim (get page p1) slash).
Proof. unfold replacer. by intros ->. Qed.

Lemma replacer_falsy page p1 :
  truthy (get page p1) = false → replacer page p1 = Err (NoValueInField p1 page).
Proof. unfold replacer. by intros ->. Qed.

(** With a value in every field the replacement is the concatenation of
    what the segments contribute. *)
Lemma replace_segments_truthy page segs :
  Forall (λ p1, truthy (get page p1) = true) (holes segs) →
  replace_segments page segs = Ok (concat_strings (List.map (substituted page) segs)).
Proof.
  induction segs as [|[a|p1] segs IH]; simpl; intros Hall.
  - done.
  - by rewrite (IH Hall).
  - apply Forall_cons in Hall as [Hp Hall].
    by rewrite (replacer_truthy _ _ Hp), result_bind_ok, (IH Hall).
Qed.

(** The first field without a value is the one reported. *)
Lemma replace_segments_falsy page segs :
  Exists (λ p1, truthy (get page p1) = false) (holes segs) →
  ∃ p1 before after,
    holes segs = before ++ p1 :: after
    ∧ Forall (λ q, truthy (get page q) = true) before
    ∧ truthy (get page p1) = false
    ∧ replace_segments page segs = Err (NoValueInField p1 page).
Proof.
  induction segs as [|[a|p1] segs IH]; simpl; intros Hex.
  - by apply Exists_nil in Hex.
  - destruct (IH Hex) as (q & before & after & -> & Hb & Hq & ->).
    by exists q, before, after.
  - destruct (truthy (get page p1)) eqn:Hp.
    + apply Exists_cons in Hex as [Hex|Hex]; [congruence|].
      destruct (IH Hex) as (q & before & after & -> & Hb & Hq & Hr).
      exists q, (p1 :: before), after. repeat split; [by constructor|done|].
      by rewrite (replacer_truthy _ _ Hp), result_bind_ok, Hr.
    + exists p1, [], (holes segs). repeat split; [done..|].
      by rewrite (replacer_falsy _ _ Hp).
Qed.

Lemma contains_substituted c page segs :
  contains c (copied segs) = false →
  Forall (λ p1, contains c (trim (get page p1) slash) = false) (holes segs) →
  contains c (concat_strings (List.map (substituted page) segs)) = false.
Proof.
  induction segs as [|[a|p1] segs IH]; simpl; intros Hc Hall.
  - done.
  - apply orb_false_iff in Hc as [Ha Hc].
    change (contains c (String a (concat_strings (List.map (substituted page) segs))) = false).
    simpl. rewrite Ha. by apply IH.
  - apply Forall_cons in Hall as [Hp Hall].
    rewrite contains_app, Hp. by apply IH.
Qed.

Lemma forallb_Forall {A} (f : A → bool) (l : list A) :
  forallb f l = true ↔ Forall (λ x, f x = true) l.
Proof.
  induction l as [|x l IH]; simpl.
  - split; [constructor|done].
  - rewrite andb_true_iff, IH, Forall_cons. done.
Qed.

Lemma existsb_Exists {A} (f : A → bool) (l : list A) :
  existsb f l = true ↔ Exists (λ x, f x = true) l.
Proof.
  induction l as [|x l IH]; simpl.
  - split; [done|]. by intros ?%Exists_nil.
  - rewrite orb_true_iff, IH, Exists_cons. done.
Qed.

(** C1 (as amended).  When every placeholder of the template resolves to a
    truthy value on the record, [interpolatePagePath] returns a path that
    starts with a slash.  The path is the template with each placeholder
    replaced by the text of its value without the slashes at its two ends,
    and with one slash put in front when that text does not start with
    one.  It has no brace when the template has none outside its
    placeholders and no substituted text has one. *)
Theorem interpolatePagePath_with_values (pathTemplate : string) (page : value) :
  forallb (λ p1, truthy (get page p1)) (placeholders pathTemplate) = true →
  ∃ urlPath,
    interpolatePagePath pathTemplate page = Ok urlPath
    ∧ startsWith urlPath slash = true
    ∧ (let body := concat_strings (List.map (substituted page) (segments pathTemplate)) in
       urlPath = if startsWith body slash then body else String slash body)
    ∧ Forall (λ p1, ∃ n m,
                toString (get page p1)
                = repeat_char slash n +:+ trim (get page p1) slash +:+ repeat_char slash m
                ∧ startsWith (trim (get page p1) slash) slash = false
                ∧ endsWith (trim (get page p1) slash) slash = false)
             (placeholders pathTemplate)
    ∧ (contains lbrace (literal_text pathTemplate) = false →
       contains rbrace (literal_text pathTemplate) = false →
       forallb (λ p1, negb (contains lbrace (trim (get page p1) slash))
                      && negb (contains rbrace (trim (get page p1) slash)))
               (placeholders pathTemplate) = true →
       contains lbrace urlPath = false ∧ contains rbrace urlPath = false).
Proof.
  intros Hall%forallb_Forall.
  unfold interpolatePagePath, placeholders, literal_text in *.
  rewrite (replace_segments_truthy _ _ Hall), result_bind_ok.
  set (body := concat_strings (List.map (substituted page) (segments pathTemplate))).
  eexists. split; [reflexivity|]. split; [|split; [|split]].
  - destruct (startsWith body slash) eqn:E; simpl; [done|reflexivity].
  - simpl. by destruct (startsWith body slash).
  - apply Forall_forall. intros p1 _. apply trim_spec.
  - intros Hl Hr Hvals%forallb_Forall.
    assert (contains lbrace body = false ∧ contains rbrace body = false) as [Hbl Hbr].
    { split; apply contains_substituted; try done.
      - eapply Forall_impl; [exact Hvals|]. simpl.
        by intros p1 [?%negb_true_iff _]%andb_true_iff.
      - eapply Forall_impl; [exact Hvals|]. simpl.
        by intros p1 [_ ?%negb_true_iff]%andb_true_iff. }
    destruct (startsWith body slash); simpl; by rewrite ?Hbl, ?Hbr.
Qed.

Lemma interpolatePagePath_with_values_witness :
  forallb (λ p1, truthy (get (VObj {[ "slug" := VStr "/hello-world/" ]}) p1))
          (placeholders "posts/{slug}") = true
  ∧ ∃ urlPath,
      interpolatePagePath "posts/{slug}" (VObj {[ "slug" := VStr "/hello-world/" ]}) = Ok urlPath
      ∧ urlPath = "/posts/hello-world"
      ∧ contains lbrace urlPath = false ∧ contains rbrace urlPath = false.
Proof.
  split; [vm_compute; reflexivity|].
  destruct (interpolatePagePath_with_values
              "posts/{slug}" (VObj {[ "slug" := VStr "/hello-world/" ]}))
    as (urlPath & Hok & _ & Hbody & _ & Hbraces); [vm_compute; reflexivity|].
  exists urlPath. split; [exact Hok|]. split.
  - rewrite Hbody. vm_compute. reflexivity.
  - apply Hbraces; vm_compute; reflexivity.
Defined.

(** C1 as stated fails: a substituted value can bring braces into the
    path. *)
Lemma interpolatePagePath_keeps_braces_of_values :
  forallb (λ p1, truthy (get (VObj {[ "slug" := VStr "{draft}" ]}) p1))
          (placeholders "/posts/{slug}") = true
  ∧ interpolatePagePath "/posts/{slug}" (VObj {[ "slug" := VStr "{draft}" ]})
    = Ok "/posts/{draft}"
  ∧ contains lbrace "/posts/{draft}" = true
  ∧ contains rbrace "/posts/{draft}" = true.
Proof. vm_compute. repeat split; reflexivity. Qed.

(** So can the template itself: braces with nothing between them are not
    a placeholder. *)
Lemma interpolatePagePath_keeps_empty_braces :
  placeholders "/tags/{}" = []
  ∧ interpolatePagePath "/tags/{}" VUndefined = Ok "/tags/{}".
Proof. vm_compute. split; reflexivity. Qed.

(** C2.  When some placeholder of the template does not resolve to a
    truthy value on the record, [interpolatePagePath] throws, and returns
    no path: the error carries the first such placeholder, from the left,
    and the record. *)
Theorem interpolatePagePath_without_value (pathTemplate : string) (page : value) :
  existsb (λ p1, negb (truthy (get page p1))) (placeholders pathTemplate) = true →
  ∃ p1 before after,
    placeholders pathTemplate = before ++ p1 :: after
    ∧ Forall (λ q, truthy (get page q) = true) before
    ∧ truthy (get page p1) = false
    ∧ interpolatePagePath pathTemplate page = Err (NoValueInField p1 page)
    ∧ ∀ urlPath, interpolatePagePath pathTemplate page ≠ Ok urlPath.
Proof.
  intros Hex%existsb_Exists.
  destruct (replace_segments_falsy page (segments pathTemplate))
    as (p1 & before & after & Hsplit & Hb & Hp & Hr).
  { eapply Exists_impl; [exact Hex|]. simpl. by intros q ?%negb_true_iff. }
  exists p1, before, after. unfold interpolatePagePath. rewrite Hr.
  repeat split; done.
Qed.

Lemma interpolatePagePath_without_value_witness :
  existsb (λ p1, negb (truthy (get (VObj {[ "slug" := VStr "a"; "draft" := VBool false ]}) p1)))
          (placeholders "/{slug}/{category.name}/{draft}") = true
  ∧ ∃ p1,
      interpolatePagePath "/{slug}/{category.name}/{draft}"
        (VObj {[ "slug" := VStr "a"; "draft" := VBool false ]})
      = Err (NoValueInField p1 (VObj {[ "slug" := VStr "a"; "draft" := VBool false ]})).
Proof.
  split; [vm_compute; reflexivity|].
  destruct (interpolatePagePath_without_value "/{slug}/{category.name}/{draft}"
              (VObj {[ "slug" := VStr "a"; "draft" := VBool false ]}))
    as (p1 & before & after & Hsplit & Hb & Hp & Herr & _); [vm_compute; reflexivity|].
  exists p1. exact Herr.
Defined.

(** ** reducePropsMap *)

Lemma assign_objects (object source : gmap string value) :
  assign (VObj object) (VObj source) = VObj (source ∪ object).
Proof. reflexivity. Qed.

Lemma reduceProp_insert data propName propDef (accum : gmap string value) :
  reduceProp data propName propDef (VObj accum)
  = VObj (<[ propName :=
               if propDef_single propDef then find data (propDef_predicate propDef)
               else VArr (filter data (propDef_predicate propDef)) ]> accum).
Proof.
  unfold reduceProp.
  destruct (propDef_single propDef); rewrite !assign_objects;
    by rewrite (right_id_L ∅ (∪)), <- insert_union_singleton_l.
Qed.

Lemma reducePropsMap_object data (defs : gmap string PropDefinition) :
  reducePropsMap (PropsObject defs) data
  = VObj ((λ propDef,
             if propDef_single propDef then find data (propDef_predicate propDef)
             else VArr (filter data (propDef_predicate propDef))) <$> defs).
Proof.
  simpl. apply (map_fold_weak_ind (λ r m, r = VObj (_ <$> m))).
  - by rewrite fmap_empty.
  - intros propName propDef m r _ ->.
    by rewrite reduceProp_insert, fmap_insert.
Qed.

Lemma find_first data predicate :
  (∃ before r after,
      data = before ++ r :: after
      ∧ Forall (λ x, predicate x = false) before
      ∧ predicate r = true
      ∧ find data predicate = r)
  ∨ (Forall (λ x, predicate x = false) data ∧ find data predicate = VUndefined).
Proof.
  unfold find. induction data as [|x data IH]; simpl.
  - right. by split.
  - destruct (predicate x) eqn:Hx.
    + left. by exists [], x, data.
    + destruct IH as [(before & r & after & -> & Hb & Hr & Hf)|[Hall Hf]].
      * left. exists (x :: before), r, after. repeat split; [by constructor|done..].
      * right. split; [by constructor|done].
Qed.

(** C4.  For a declarative props map, [reducePropsMap] binds each of its
    prop names, and no other name.  A name whose definition has [single]
    is bound to the first record, in input order, that satisfies the
    predicate, or to [undefined] when no record does; a name whose
    definition has not is bound to the array of all records that satisfy
    the predicate, in input order, each as often as it occurs. *)
Theorem reducePropsMap_declarative (data : list value)
    (defs : gmap string PropDefinition) (propName : string) :
  match defs !! propName with
  | None => own_props (reducePropsMap (PropsObject defs) data) !! propName = None
  | Some propDef =>
      let predicate := propDef_predicate propDef in
      ∃ v,
        own_props (reducePropsMap (PropsObject defs) data) !! propName = Some v
        ∧ if propDef_single propDef then
            (∃ before r after,
                data = before ++ r :: after
                ∧ Forall (λ x, predicate x = false) before
                ∧ predicate r = true
                ∧ v = r)
            ∨ (Forall (λ x, predicate x = false) data ∧ v = VUndefined)
          else v = VArr (List.filter predicate data)
  end.
Proof.
  rewrite reducePropsMap_object. simpl. rewrite lookup_fmap.
  destruct (defs !! propName) as [propDef|]; simpl; [|done].
  eexists. split; [reflexivity|].
  destruct (propDef_single propDef); [|done].
  destruct (find_first data (propDef_predicate propDef))
    as [(before & r & after & ? & ? & ? & ?)|[? ?]]; [left|right]; eauto 10.
Qed.

(** ** reducePages *)

(** A [_.reduce] whose callback appends to the accumulator, and never
    throws, appends what the elements add, in order. *)
Lemma reduce_appends {A} (f : list value → A → result (list value))
    (g : A → list value) (l : list A) (accum : list value) :
  (∀ accum x, f accum x = Ok (accum ++ g x)) →
  reduce f l accum = Ok (accum ++ flat_map g l).
Proof.
  intros Hf. revert accum. induction l as [|x l IH]; intros accum; simpl.
  - by rewrite app_nil_r.
  - by rewrite Hf, result_bind_ok, IH, app_assoc.
Qed.

Lemma reduceItem_appends accum item :
  reduceItem accum item = Ok (accum ++ item_entries item).
Proof.
  unfold reduceItem, item_entries.
  destruct (interpolate_item item); simpl; [done|]. by rewrite app_nil_r.
Qed.

Lemma reducePage_appends pageTypeDef data accum page :
  reducePage pageTypeDef data accum page = Ok (accum ++ page_entries pageTypeDef data page).
Proof.
  unfold reducePage, page_entries.
  destruct (interpolatePagePath _ page); simpl; [done|]. by rewrite app_nil_r.
Qed.

Lemma reducePageType_appends data accum pageTypeDef :
  reducePageType data accum pageTypeDef
  = Ok (accum ++ flat_map (page_entries pageTypeDef data)
                          (filter data (pageTypeDef_predicate pageTypeDef))).
Proof.
  unfold reducePageType. apply reduce_appends. intros. apply reducePage_appends.
Qed.

Lemma reducePages_function f data :
  reducePages (PagesFunction f) data = Ok (flat_map item_entries (f data)).
Proof.
  simpl. rewrite (reduce_appends _ item_entries); [done|]. apply reduceItem_appends.
Qed.

Lemma reducePages_list defs data :
  reducePages (PagesList defs) data
  = Ok (flat_map (λ pageTypeDef,
                    flat_map (page_entries pageTypeDef data)
                             (filter data (pageTypeDef_predicate pageTypeDef)))
                 defs).
Proof.
  simpl. rewrite (reduce_appends _ (λ pageTypeDef,
    flat_map (page_entries pageTypeDef data)
             (filter data (pageTypeDef_predicate pageTypeDef)))); [done|].
  intros. apply reducePageType_appends.
Qed.

Lemma pageDescriptor_lookup urlPath page props key :
  own_props (pageDescriptor urlPath page props) !! key
  = match own_props props !! key with
    | Some v => Some v
    | None =>
        if String.eqb key "path" then Some (VStr urlPath)
        else if String.eqb key "page" then Some page
        else None
    end.
Proof.
  change (own_props (pageDescriptor urlPath page props))
    with (own_props props ∪ <[ "path" := VStr urlPath ]> {[ "page" := page ]}).
  rewrite lookup_union.
  destruct (own_props props !! key) as [v|].
  - by destruct (_ !! key).
  - rewrite (left_id_L None _).
    destruct (String.eqb_spec key "path") as [->|Hpath].
    + by rewrite lookup_insert_eq.
    + rewrite lookup_insert_ne by done.
      destruct (String.eqb_spec key "page") as [->|Hpage].
      * by rewrite lookup_singleton_eq.
      * by rewrite lookup_singleton_ne.
Qed.

(** C5 (as amended).  In the declarative mode [reducePages] returns, for
    each definition in order and for each record that satisfies the
    definition's predicate, in record order, the entry of that record when
    the interpolation of the definition's template (['/{slug}'] when the
    definition has no [path]) succeeds on it.  The entry holds the props
    reduced over the full record list from the definition's [props];
    [path] is the interpolated template and [page] is the record unless
    the reduced props have a property of that name, which then takes its
    place. *)
Theorem reducePages_declarative (defs : list PageTypeDefinition) (data : list value) :
  reducePages (PagesList defs) data
  = Ok (flat_map (λ pageTypeDef,
                    flat_map (page_entries pageTypeDef data)
                             (List.filter (pageTypeDef_predicate pageTypeDef) data))
                 defs)
  ∧ (∀ pageTypeDef page,
       page_entries pageTypeDef data page
       = match interpolatePagePath (pathTemplate_of pageTypeDef) page with
         | Ok urlPath =>
             [pageDescriptor urlPath page
                (reducePropsMap (pageTypeDef_props pageTypeDef) data)]
         | Err _ => []
         end)
  ∧ (∀ predicate props,
       pathTemplate_of {| pageTypeDef_path := None;
                          pageTypeDef_predicate := predicate;
                          pageTypeDef_props := props |} = "/{slug}")
  ∧ (∀ urlPath page props key,
       own_props (pageDescriptor urlPath page props) !! key
       = match own_props props !! key with
         | Some v => Some v
         | None =>
             if String.eqb key "path" then Some (VStr urlPath)
             else if String.eqb key "page" then Some page
             else None
         end).
Proof.
  split; [apply reducePages_list|]. split; [done|]. split; [done|].
  apply pageDescriptor_lookup.
Qed.

(** A record without the category of the template gives no page. *)
Example reducePages_missing_category :
  reducePages (PagesList [Sample.page_by_category]) [Sample.about; Sample.post]
  = Ok [VObj {[ "path" := VStr "/news/hello-world"; "page" := Sample.post ]}].
Proof. vm_compute. reflexivity. Qed.

(** C5 as stated fails for a definition with a prop called [path]: the
    entry's [path] is the reduced prop, not the interpolated template. *)
Lemma reducePages_path_prop_overrides :
  interpolatePagePath (pathTemplate_of Sample.page_with_path_prop) Sample.about = Ok "/about"
  ∧ ∃ entry,
      reducePages (PagesList [Sample.page_with_path_prop]) [Sample.about] = Ok [entry]
      ∧ own_props entry !! "path" = Some Sample.about
      ∧ own_props entry !! "path" ≠ Some (VStr "/about").
Proof.
  split; [vm_compute; reflexivity|].
  eexists. split; [vm_compute; reflexivity|].
  split; [vm_compute; reflexivity|]. vm_compute. discriminate.
Qed.






(** ** SourcebitDataClient: the lookups *)

Lemma matches_path_spec pagePath (page : gmap string value) :
  matches_path pagePath page = true ↔ page_path page = VStr pagePath.
Proof.
  unfold matches_path, page_path.
  destruct (page !! "path") as [[| | | |s| |]|]; simpl; try (split; congruence).
  rewrite String.eqb_eq. split; congruence.
Qed.

Lemma find_first_page pagePath (l : list (gmap string value)) :
  match List.find (matches_path pagePath) l with
  | Some page =>
      ∃ before after,
        l = before ++ page :: after
        ∧ Forall (λ d, page_path d ≠ VStr pagePath) before
        ∧ page_path page = VStr pagePath
  | None => Forall (λ d, page_path d ≠ VStr pagePath) l
  end.
Proof.
  induction l as [|d l IH]; simpl; [constructor|].
  destruct (matches_path pagePath d) eqn:Hd.
  - exists [], l. split; [done|]. split; [constructor|]. by apply matches_path_spec.
  - assert (page_path d ≠ VStr pagePath) as Hne.
    { intros ?%matches_path_spec. congruence. }
    destruct (List.find _ l) as [page|].
    + destruct IH as (before & after & -> & Hb & Hp).
      exists (d :: before), after. split; [done|]. split; [by constructor|done].
    + by constructor.
Qed.

(** C6 (as amended).  [getStaticPropsForPageAtPath] returns what
    [getPropsFromCMSDataForPagePath] makes of the snapshot read by
    [getData], and that is always an object.  When no page of the snapshot has exactly the given path, the
    object holds the shared props and nothing else.  Otherwise it is the
    first page with that path with the shared props written over it: a
    shared prop replaces a property of the page with the same name. *)
Theorem getPropsFromCMSDataForPagePath_merges (data : Snapshot) (pagePath : string) :
  let shared := if truthy (props data) then own_props (props data) else ∅ in
  (∀ cwd JSON_parse fs_at,
     getStaticPropsForPageAtPath cwd JSON_parse fs_at pagePath
     = match snd (getData cwd JSON_parse fs_at) with
       | Ok data' => Ok (getPropsFromCMSDataForPagePath data' pagePath)
       | Err e => Err e
       end)
  ∧ ∃ fields : gmap string value,
    getPropsFromCMSDataForPagePath data pagePath = VObj fields
    ∧ ((∃ before page after,
           snapshot_pages data = before ++ page :: after
           ∧ Forall (λ d, page_path d ≠ VStr pagePath) before
           ∧ page_path page = VStr pagePath
           ∧ ∀ key, fields !! key
                    = match shared !! key with
                      | Some v => Some v
                      | None => page !! key
                      end)
       ∨ (Forall (λ d, page_path d ≠ VStr pagePath) (snapshot_pages data)
          ∧ fields = shared)).
Proof.
  intros shared. split; [done|]. unfold getPropsFromCMSDataForPagePath.
  pose proof (find_first_page pagePath (snapshot_pages data)) as Hfind.
  destruct (List.find _ (snapshot_pages data)) as [page|].
  - destruct Hfind as (before & after & Hsplit & Hb & Hp).
    exists (shared ∪ page). split.
    + unfold assign, shared. destruct (truthy (props data)); simpl; [done|].
      by rewrite (left_id_L ∅ (∪)).
    + left. exists before, page, after. repeat split; [done..|].
      intros key. rewrite lookup_union. destruct (shared !! key); simpl.
      * by destruct (page !! key).
      * by rewrite (left_id_L None _).
  - exists shared. split.
    + unfold assign, shared. destruct (truthy (props data)); simpl; [|done].
      by rewrite (right_id_L ∅ (∪)).
    + by right.
Qed.

(** C6 as stated fails: for a path that no page has, the result is not
    [undefined] but an object with the shared props. *)
Lemma getPropsFromCMSDataForPagePath_no_page :
  List.find (matches_path "/missing") (snapshot_pages SampleSnapshot.data) = None
  ∧ getPropsFromCMSDataForPagePath SampleSnapshot.data "/missing"
    = VObj {[ "title" := VStr "B" ]}
  ∧ getPropsFromCMSDataForPagePath SampleSnapshot.data "/missing" ≠ VUndefined.
Proof.
  split; [vm_compute; reflexivity|]. split; [vm_compute; reflexivity|].
  vm_compute. discriminate.
Qed.

(** The shared [title] wins over the page's. *)
Example getPropsFromCMSDataForPagePath_title :
  member (getPropsFromCMSDataForPagePath SampleSnapshot.data "/") "title" = VStr "B".
Proof. vm_compute. reflexivity. Qed.

(** ** SourcebitDataClient: reading the cache file *)

Lemma checkPathExists_cases cwd fs_at numOfRetries :
  checkPathExists cwd fs_at numOfRetries
  = if bool_decide (is_Some (fs_at numOfRetries !! DEFAULT_FILE_CACHE_PATH cwd)) then
      ([PathExists (DEFAULT_FILE_CACHE_PATH cwd) true], Ok numOfRetries)
    else if (numOfRetries <? maxNumOfRetries)%nat then
      (PathExists (DEFAULT_FILE_CACHE_PATH cwd) false
         :: SetTimeout retryDelay :: fst (checkPathExists cwd fs_at (numOfRetries + 1)),
       snd (checkPathExists cwd fs_at (numOfRetries + 1)))
    else
      ([PathExists (DEFAULT_FILE_CACHE_PATH cwd) false],
       Err (CacheFileNotFound (DEFAULT_FILE_CACHE_PATH cwd) numOfRetries)).
Proof.
  funelim (checkPathExists cwd fs_at numOfRetries).
  - by rewrite present.
  - rewrite absent, retry.
    by destruct (checkPathExists cwd fs_at (numOfRetries + 1)).
  - by rewrite absent, exhausted.
Qed.

Lemma checkPathExists_present cwd fs_at n text :
  fs_at n !! DEFAULT_FILE_CACHE_PATH cwd = Some text →
  checkPathExists cwd fs_at n = ([PathExists (DEFAULT_FILE_CACHE_PATH cwd) true], Ok n).
Proof.
  intros Hn. rewrite checkPathExists_cases, Hn.
  by rewrite bool_decide_eq_true_2.
Qed.

Lemma checkPathExists_absent cwd fs_at n :
  fs_at n !! DEFAULT_FILE_CACHE_PATH cwd = None →
  n < maxNumOfRetries →
  checkPathExists cwd fs_at n
  = (polls cwd 1 ++ fst (checkPathExists cwd fs_at (n + 1)),
     snd (checkPathExists cwd fs_at (n + 1))).
Proof.
  intros Hn Hlt. rewrite checkPathExists_cases, Hn.
  rewrite bool_decide_eq_false_2 by (by intros [? ?]).
  by apply Nat.ltb_lt in Hlt as ->.
Qed.

Lemma checkPathExists_exhausted cwd fs_at n :
  fs_at n !! DEFAULT_FILE_CACHE_PATH cwd = None →
  maxNumOfRetries ≤ n →
  checkPathExists cwd fs_at n
  = ([PathExists (DEFAULT_FILE_CACHE_PATH cwd) false],
     Err (CacheFileNotFound (DEFAULT_FILE_CACHE_PATH cwd) n)).
Proof.
  intros Hn Hge. rewrite checkPathExists_cases, Hn.
  rewrite bool_decide_eq_false_2 by (by intros [? ?]).
  by apply Nat.ltb_ge in Hge as ->.
Qed.

Lemma polls_add cwd j k : polls cwd (j + k) = polls cwd j ++ polls cwd k.
Proof. induction j as [|j IH]; simpl; [done|]. by rewrite IH. Qed.

Lemma waited_app l1 l2 : waited (l1 ++ l2) = waited l1 + waited l2.
Proof.
  induction l1 as [|[] l1 IH]; simpl; rewrite ?IH; lia.
Qed.

Lemma waited_polls cwd k : waited (polls cwd k) = 500 * k.
Proof. induction k as [|k IH]; simpl; [done|]. unfold retryDelay. lia. Qed.

(** [k] checks in a row that do not find the file, within the budget. *)
Lemma checkPathExists_polls cwd fs_at k :
  ∀ n,
    n + k ≤ maxNumOfRetries →
    (∀ j, n ≤ j < n + k → fs_at j !! DEFAULT_FILE_CACHE_PATH cwd = None) →
    checkPathExists cwd fs_at n
    = (polls cwd k ++ fst (checkPathExists cwd fs_at (n + k)),
       snd (checkPathExists cwd fs_at (n + k))).
Proof.
  induction k as [|k IH]; intros n Hle Habs.
  - rewrite Nat.add_0_r. by destruct (checkPathExists cwd fs_at n).
  - rewrite checkPathExists_absent by (try apply Habs; lia).
    rewrite (IH (n + 1)) by (try (intros; apply Habs); lia).
    replace (n + 1 + k) with (n + S k) by lia.
    change (polls cwd (S k)) with (polls cwd (1 + k)).
    by rewrite polls_add, <- app_assoc.
Qed.

(** C7.  [getData] checks whether the cache file exists; each time it does
    not, and fewer than 10 retries were made, it waits 500 ms and checks
    again.  When a check finds the file (the first check, or one of the 10
    retries), the file is read and parsed, and what the parser returns is
    the result.  When the file is still absent at the check after the 10th
    retry, 5000 ms of waiting in all, [getData] fails with an error that
    carries the path of the cache file and the number of retries, 10. *)
Theorem getData_retries (cwd : string) (JSON_parse : string → result Snapshot)
    (fs_at : nat → gmap string string) :
  let cache := DEFAULT_FILE_CACHE_PATH cwd in
  (∀ k text,
     k ≤ 10 →
     (∀ j, j < k → fs_at j !! cache = None) →
     fs_at k !! cache = Some text →
     getData cwd JSON_parse fs_at
     = (polls cwd k ++ [PathExists cache true; ReadJson cache], JSON_parse text)
     ∧ waited (fst (getData cwd JSON_parse fs_at)) = 500 * k)
  ∧ ((∀ j, j ≤ 10 → fs_at j !! cache = None) →
     getData cwd JSON_parse fs_at
     = (polls cwd 10 ++ [PathExists cache false], Err (CacheFileNotFound cache 10))
     ∧ waited (fst (getData cwd JSON_parse fs_at)) = 5000).
Proof.
  intros cache. split.
  - intros k text Hk Habs Hpresent.
    assert (getData cwd JSON_parse fs_at
            = (polls cwd k ++ [PathExists cache true; ReadJson cache], JSON_parse text))
      as Hget.
    { unfold getData.
      rewrite (checkPathExists_polls cwd fs_at k 0)
        by (try (intros; apply Habs); unfold maxNumOfRetries; lia).
      rewrite (checkPathExists_present cwd fs_at (0 + k) text) by done.
      simpl. unfold readJson. fold cache. rewrite Hpresent.
      by rewrite <- app_assoc. }
    split; [done|]. rewrite Hget. cbn [fst].
    rewrite waited_app, waited_polls. simpl. lia.
  - intros Habs.
    assert (getData cwd JSON_parse fs_at
            = (polls cwd 10 ++ [PathExists cache false], Err (CacheFileNotFound cache 10)))
      as Hget.
    { unfold getData.
      rewrite (checkPathExists_polls cwd fs_at 10 0)
        by (try (intros; apply Habs); unfold maxNumOfRetries; lia).
      rewrite (checkPathExists_exhausted cwd fs_at (0 + 10))
        by (try apply Habs; unfold maxNumOfRetries; simpl; lia).
      done. }
    split; [done|]. rewrite Hget. cbn [fst].
    rewrite waited_app, waited_polls. simpl. lia.
Qed.

Lemma getData_retries_witness :
  (∀ j, j < 2 →
     SampleSnapshot.appears_at_third_check j
       !! DEFAULT_FILE_CACHE_PATH SampleSnapshot.cwd = None)
  ∧ SampleSnapshot.appears_at_third_check 2
      !! DEFAULT_FILE_CACHE_PATH SampleSnapshot.cwd = Some "{}"%string
  ∧ snd (getData SampleSnapshot.cwd SampleSnapshot.parse
           SampleSnapshot.appears_at_third_check)
    = Ok SampleSnapshot.data
  ∧ waited (fst (getData SampleSnapshot.cwd SampleSnapshot.parse
                   SampleSnapshot.appears_at_third_check)) = 1000
  ∧ (∀ j, j ≤ 10 →
       SampleSnapshot.never_appears j
         !! DEFAULT_FILE_CACHE_PATH SampleSnapshot.cwd = None)
  ∧ snd (getData SampleSnapshot.cwd SampleSnapshot.parse SampleSnapshot.never_appears)
    = Err (CacheFileNotFound "/site/.sourcebit-nextjs-cache.json" 10)
  ∧ waited (fst (getData SampleSnapshot.cwd SampleSnapshot.parse
                   SampleSnapshot.never_appears)) = 5000.
Proof.
  assert (∀ j, j < 2 →
            SampleSnapshot.appears_at_third_check j
              !! DEFAULT_FILE_CACHE_PATH SampleSnapshot.cwd = None) as Habsent.
  { intros [|[|j]] Hj; [reflexivity..|lia]. }
  assert (∀ j, j ≤ 10 →
            SampleSnapshot.never_appears j
              !! DEFAULT_FILE_CACHE_PATH SampleSnapshot.cwd = None) as Hnever.
  { intros j _. reflexivity. }
  destruct (getData_retries SampleSnapshot.cwd SampleSnapshot.parse
              SampleSnapshot.appears_at_third_check) as [Hfound _].
  destruct (Hfound 2 "{}"%string) as [Hget Hwait];
    [lia|exact Habsent|vm_compute; reflexivity|].
  destruct (getData_retries SampleSnapshot.cwd SampleSnapshot.parse
              SampleSnapshot.never_appears) as [_ Hfails].
  destruct (Hfails Hnever) as [Hget' Hwait'].
  split; [exact Habsent|]. split; [vm_compute; reflexivity|].
  split; [by rewrite Hget|]. split; [exact Hwait|].
  split; [exact Hnever|]. split; [by rewrite Hget'|exact Hwait'].
Defined.

Lemma getData_found cwd JSON_parse fs_at k text :
  k ≤ 10 →
  (∀ j, j < k → fs_at j !! DEFAULT_FILE_CACHE_PATH cwd = None) →
  fs_at k !! DEFAULT_FILE_CACHE_PATH cwd = Some text →
  snd (getData cwd JSON_parse fs_at) = JSON_parse text.
Proof.
  intros Hk Habs Hpresent. unfold getData.
  rewrite (checkPathExists_polls cwd fs_at k 0)
    by (try (intros; apply Habs); unfold maxNumOfRetries; lia).
  rewrite (checkPathExists_present cwd fs_at (0 + k) text) by done.
  simpl. unfold readJson. by rewrite Hpresent.
Qed.

(** C8.  When [getData] returns a snapshot, [getStaticPaths] returns one
    value for each of its pages, in the order of the pages: the value at a
    position is the [path] property of the page at that position
    ([undefined] for a page without one), so that pages with equal paths
    each give their value.  When [getData] fails, so does
    [getStaticPaths].  In particular, once the cache file is there at one
    of the 11 checks and holds a snapshot, the paths of that snapshot's
    pages are what is returned. *)
Theorem getStaticPaths_lists_paths (cwd : string) (JSON_parse : string → result Snapshot)
    (fs_at : nat → gmap string string) :
  let path_of := λ page : gmap string value,
    match page !! "path" with
    | Some v => v
    | None => VUndefined
    end in
  match snd (getData cwd JSON_parse fs_at) with
  | Ok data =>
      ∃ paths,
        getStaticPaths cwd JSON_parse fs_at = Ok paths
        ∧ length paths = length (snapshot_pages data)
        ∧ ∀ i, paths !! i = path_of <$> snapshot_pages data !! i
  | Err e => getStaticPaths cwd JSON_parse fs_at = Err e
  end
  ∧ ∀ k text data,
      k ≤ 10 →
      (∀ j, j < k → fs_at j !! DEFAULT_FILE_CACHE_PATH cwd = None) →
      fs_at k !! DEFAULT_FILE_CACHE_PATH cwd = Some text →
      JSON_parse text = Ok data →
      getStaticPaths cwd JSON_parse fs_at = Ok (List.map path_of (snapshot_pages data)).
Proof.
  intros path_of.
  assert (∀ pages : list (gmap string value), List.map page_path pages = List.map path_of pages)
    as Hsame.
  { intros pages. apply map_ext. intros page. unfold page_path, path_of.
    by destruct (page !! "path"). }
  split.
  - unfold getStaticPaths.
    destruct (snd (getData cwd JSON_parse fs_at)) as [data|e]; [|done].
    eexists. split; [reflexivity|]. split.
    + apply length_map.
    + intros i. rewrite Hsame.
      change (List.map path_of (snapshot_pages data)) with (path_of <$> snapshot_pages data).
      apply list_lookup_fmap.
  - intros k text data Hk Habs Hpresent Hparse. unfold getStaticPaths.
    rewrite (getData_found cwd JSON_parse fs_at k text Hk Habs Hpresent), Hparse.
    by rewrite result_bind_ok, Hsame.
Qed.

Lemma getStaticPaths_lists_paths_witness :
  (∀ j, j < 2 →
     SampleSnapshot.appears_at_third_check j
       !! DEFAULT_FILE_CACHE_PATH SampleSnapshot.cwd = None)
  ∧ SampleSnapshot.appears_at_third_check 2
      !! DEFAULT_FILE_CACHE_PATH SampleSnapshot.cwd = Some "{}"%string
  ∧ SampleSnapshot.parse "{}" = Ok SampleSnapshot.data
  ∧ getStaticPaths SampleSnapshot.cwd SampleSnapshot.parse
      SampleSnapshot.appears_at_third_check
    = Ok [VStr "/"; VStr "/blog"; VStr "/blog"].
Proof.
  assert (∀ j, j < 2 →
            SampleSnapshot.appears_at_third_check j
              !! DEFAULT_FILE_CACHE_PATH SampleSnapshot.cwd = None) as Habsent.
  { intros [|[|j]] Hj; [reflexivity..|lia]. }
  split; [exact Habsent|]. split; [vm_compute; reflexivity|]. split; [reflexivity|].
  destruct (getStaticPaths_lists_paths SampleSnapshot.cwd SampleSnapshot.parse
              SampleSnapshot.appears_at_third_check) as [_ Hfound].
  rewrite (Hfound 2 "{}"%string SampleSnapshot.data);
    [vm_compute; reflexivity|lia|exact Habsent|vm_compute; reflexivity|reflexivity].
Defined.

(** Two pages with the same path give two paths. *)
Example getStaticPaths_duplicates :
  getStaticPaths SampleSnapshot.cwd SampleSnapshot.parse SampleSnapshot.appears_at_third_check
  = Ok [VStr "/"; VStr "/blog"; VStr "/blog"].
Proof. vm_compute. reflexivity. Qed.

(** ** The cache file of the producer and the one of the client *)

(** [checkPathExists] looks at nothing but the default cache file. *)
Lemma checkPathExists_ext cwd fs_at fs_at' :
  (∀ k, fs_at k !! DEFAULT_FILE_CACHE_PATH cwd = fs_at' k !! DEFAULT_FILE_CACHE_PATH cwd) →
  ∀ n, checkPathExists cwd fs_at n = checkPathExists cwd fs_at' n.
Proof.
  intros Hsame n.
  remember (maxNumOfRetries - n) as budget eqn:Hbudget.
  revert n Hbudget. induction budget as [|budget IH]; intros n Hbudget;
    rewrite (checkPathExists_cases cwd fs_at), (checkPathExists_cases cwd fs_at'), Hsame;
    destruct (bool_decide _); [done| |done|].
  - assert ((n <? maxNumOfRetries)%nat = false) as -> by (apply Nat.ltb_ge; lia). done.
  - destruct (n <? maxNumOfRetries)%nat eqn:Hlt; [|done].
    apply Nat.ltb_lt in Hlt. by rewrite (IH (n + 1)) by lia.
Qed.

Lemma getData_ext cwd JSON_parse fs_at fs_at' :
  (∀ k, fs_at k !! DEFAULT_FILE_CACHE_PATH cwd = fs_at' k !! DEFAULT_FILE_CACHE_PATH cwd) →
  getData cwd JSON_parse fs_at = getData cwd JSON_parse fs_at'.
Proof.
  intros Hsame. unfold getData, readJson.
  rewrite (checkPathExists_ext cwd fs_at fs_at' Hsame).
  destruct (checkPathExists cwd fs_at' 0) as [checks [k|e]]; [|done].
  by rewrite Hsame.
Qed.

Lemma fse_ensureFile_other path fs other :
  other ≠ path → fse_ensureFile path fs !! other = fs !! other.
Proof.
  intros Hne. unfold fse_ensureFile.
  destruct (fs !! path); [done|]. by rewrite lookup_insert_ne.
Qed.

Lemma insert_fse_ensureFile path text fs :
  <[ path := text ]> (fse_ensureFile path fs) = <[ path := text ]> fs.
Proof.
  unfold fse_ensureFile. destruct (fs !! path); [done|]. apply insert_insert_eq.
Qed.

(** [transform] writes one file, the configured one. *)
Lemma transform_files cwd isDev JSON_stringify send_after_close disk options objects w path :
  path ≠ cacheFilePath_of cwd options →
  files (fst (transform cwd isDev JSON_stringify send_after_close disk options objects w))
    !! path
  = files w !! path.
Proof.
  intros Hne. unfold transform.
  destruct (reduceAndTransformData _ _ _) as [transformedData|e]; [|done].
  destruct (ensureFile_error disk _); [done|].
  destruct (writeJson_error disk _); [by apply fse_ensureFile_other|].
  destruct (truthy (liveUpdate_of isDev options)).
  - destruct (emit _ _) as [watcher' thrown]. simpl.
    by rewrite lookup_insert_ne, fse_ensureFile_other.
  - simpl. by rewrite lookup_insert_ne, fse_ensureFile_other.
Qed.

(** C10.  [getData] takes no configuration: what it does and returns is
    determined by the file at the default path
    [<cwd>/.sourcebit-nextjs-cache.json] alone.  A [transform] with a
    [cacheFilePath] other than the default path leaves the file at the
    default path as it was, so that [getData] gives the same with the
    producer's cycle as without it. *)
Theorem getData_reads_default_cache_file (cwd : string) (isDev : bool)
    (JSON_stringify : value → string) (JSON_parse : string → result Snapshot)
    (send_after_close : option error) (disk : Disk) :
  let cache := DEFAULT_FILE_CACHE_PATH cwd in
  let transform := transform cwd isDev JSON_stringify send_after_close disk in
  cache = path_join cwd ".sourcebit-nextjs-cache.json"
  ∧ (∀ fs_at fs_at',
       (∀ k, fs_at k !! cache = fs_at' k !! cache) →
       getData cwd JSON_parse fs_at = getData cwd JSON_parse fs_at')
  ∧ (∀ options path objects w,
       cacheFilePath options = Some path →
       path ≠ cache →
       (succeeds (snd (transform options objects w)) = true →
        is_Some (files (fst (transform options objects w)) !! path))
       ∧ files (fst (transform options objects w)) !! cache = files w !! cache)
  ∧ (∀ options path objects world_at,
       cacheFilePath options = Some path →
       path ≠ cache →
       getData cwd JSON_parse (λ k, files (fst (transform options objects (world_at k))))
       = getData cwd JSON_parse (λ k, files (world_at k))).
Proof.
  intros cache transform'. split; [done|]. split; [|split].
  - intros fs_at fs_at'. apply getData_ext.
  - intros options path objects w Hpath Hne. split.
    + unfold transform', transform, cacheFilePath_of. rewrite Hpath.
      destruct (reduceAndTransformData _ _ _) as [transformedData|e]; [|done].
      destruct (ensureFile_error disk _); [done|].
      destruct (writeJson_error disk _); [done|].
      intros _. destruct (truthy (liveUpdate_of isDev options)).
      * destruct (emit _ _) as [watcher' thrown]. simpl.
        rewrite lookup_insert_eq. by eexists.
      * simpl. rewrite lookup_insert_eq. by eexists.
    + apply transform_files. unfold cacheFilePath_of. rewrite Hpath. simpl.
      intros Heq. apply Hne. by rewrite <- Heq.
  - intros options path objects world_at Hpath Hne.
    apply getData_ext. intros k. apply transform_files.
    unfold cacheFilePath_of. rewrite Hpath. simpl.
    intros Heq. apply Hne. by rewrite <- Heq.
Qed.

Lemma getData_reads_default_cache_file_witness :
  let cache := DEFAULT_FILE_CACHE_PATH SampleSnapshot.cwd in
  let after :=
    fst (transform SampleSnapshot.cwd false SampleSnapshot.stringify None
           SampleSnapshot.sound_disk
           SampleSnapshot.options [Sample.about] SampleSnapshot.fresh_world) in
  cacheFilePath SampleSnapshot.options = Some "/site/.cache/pages.json"%string
  ∧ "/site/.cache/pages.json"%string ≠ cache
  ∧ is_Some (files after !! "/site/.cache/pages.json"%string)
  ∧ files after !! cache = None
  ∧ getData SampleSnapshot.cwd SampleSnapshot.parse (λ k, files after)
    = getData SampleSnapshot.cwd SampleSnapshot.parse
        (λ k, files SampleSnapshot.fresh_world)
  ∧ getData SampleSnapshot.cwd SampleSnapshot.parse SampleSnapshot.never_appears
    = getData SampleSnapshot.cwd SampleSnapshot.parse
        (λ k, {[ "/site/.cache/pages.json"%string := "{}"%string ]}).
Proof.
  intros cache after.
  destruct (getData_reads_default_cache_file SampleSnapshot.cwd false
              SampleSnapshot.stringify SampleSnapshot.parse None SampleSnapshot.sound_disk)
    as (_ & Hext & Hwrite & Hsame).
  assert ("/site/.cache/pages.json"%string ≠ cache) as Hne.
  { vm_compute. discriminate. }
  destruct (Hwrite SampleSnapshot.options "/site/.cache/pages.json"%string
              [Sample.about] SampleSnapshot.fresh_world eq_refl Hne) as [Hfile Hcache].
  split; [reflexivity|]. split; [exact Hne|]. split.
  - apply Hfile. vm_compute. reflexivity.
  - split; [exact Hcache|]. split.
    + exact (Hsame SampleSnapshot.options "/site/.cache/pages.json"%string
               [Sample.about] (λ _, SampleSnapshot.fresh_world) eq_refl Hne).
    + apply Hext. intros k. vm_compute. reflexivity.
Defined.

(** ** startStaticPropsWatcher *)

Lemma ws_send_listeners send_after_close w ws message :
  listeners (fst (ws_send send_after_close w ws message)) = listeners w
  ∧ closed (fst (ws_send send_after_close w ws message)) = closed w.
Proof. unfold ws_send. by destruct (bool_decide _). Qed.

Lemma call_listeners_listeners send_after_close sockets :
  ∀ w, listeners (fst (call_listeners send_after_close w sockets)) = listeners w
       ∧ closed (fst (call_listeners send_after_close w sockets)) = closed w.
Proof.
  induction sockets as [|ws sockets IH]; intros w; simpl; [done|].
  destruct (ws_send_listeners send_after_close w ws LIVE_UPDATE_EVENT_NAME) as [Hl Hc].
  destruct (ws_send send_after_close w ws LIVE_UPDATE_EVENT_NAME) as [w' [e|]];
    simpl in *; [done|].
  destruct (IH w') as [Hl' Hc']. by rewrite Hl', Hc'.
Qed.

Lemma connections_cons ev evs :
  connections (ev :: evs) = connections [ev] ++ connections evs.
Proof. by destruct ev. Qed.

(** No event takes a listener away. *)
Lemma watcher_step_listeners send_after_close w ev :
  listeners (watcher_step send_after_close w ev) = listeners w ++ connections [ev].
Proof.
  destruct ev as [ws|ws message|ws|]; simpl; rewrite ?app_nil_r; try done.
  - unfold on_connection.
    by destruct (ws_send_listeners send_after_close
      {| listeners := listeners w ++ [ws]; closed := closed w;
         calls := calls w; delivered := delivered w |} ws "hello") as [-> _].
  - apply call_listeners_listeners.
Qed.

Lemma watcher_run_listeners send_after_close evs :
  ∀ w, listeners (watcher_run send_after_close w evs) = listeners w ++ connections evs.
Proof.
  induction evs as [|ev evs IH]; intros w.
  - simpl. by rewrite app_nil_r.
  - rewrite connections_cons. unfold watcher_run in *. cbn [fold_left].
    by rewrite IH, watcher_step_listeners, app_assoc.
Qed.

(** A broadcast when [ws.send] returns on a closed socket: every listener
    is called, and the open ones get the message. *)
Lemma call_listeners_returning sockets :
  ∀ w, call_listeners None w sockets
       = ({| listeners := listeners w; closed := closed w;
             calls := calls w ++ List.map wake sockets;
             delivered := delivered w ++ List.map wake (List.filter (is_open w) sockets) |},
          None).
Proof.
  induction sockets as [|ws sockets IH]; intros w; simpl.
  - rewrite !app_nil_r. by destruct w.
  - unfold ws_send, is_open.
    destruct (bool_decide (ws ∈ closed w)) eqn:Hws; simpl;
      rewrite IH; simpl; unfold is_open; simpl; by rewrite <- !app_assoc.
Qed.

(** A broadcast when [ws.send] throws on a closed socket: it ends at the
    first closed listener. *)
Lemma call_listeners_throwing e before ws after :
  ∀ w,
    forallb (is_open w) before = true →
    is_open w ws = false →
    call_listeners (Some e) w (before ++ ws :: after)
    = ({| listeners := listeners w; closed := closed w;
          calls := calls w ++ List.map wake (before ++ [ws]);
          delivered := delivered w ++ List.map wake before |},
       Some e).
Proof.
  induction before as [|ws' before IH]; intros w Hopen Hws; simpl.
  - unfold ws_send. unfold is_open in Hws.
    apply negb_false_iff in Hws. rewrite Hws. simpl.
    by rewrite app_nil_r.
  - simpl in Hopen. apply andb_true_iff in Hopen as [Hws' Hopen].
    unfold ws_send. unfold is_open in Hws'.
    apply negb_true_iff in Hws'. rewrite Hws'.
    rewrite IH by done. simpl. by rewrite <- !app_assoc.
Qed.

Lemma filter_NoDup_one (sockets : list nat) ws :
  NoDup sockets → ws ∈ sockets →
  length (List.filter (λ x, bool_decide (x = ws)) sockets) = 1.
Proof.
  induction 1 as [|x sockets Hx Hnodup IH]; intros Hin.
  - by apply elem_of_nil in Hin.
  - simpl. apply elem_of_cons in Hin as [->|Hin].
    + rewrite bool_decide_eq_true_2 by done. simpl. f_equal.
      apply length_zero_iff_nil.
      clear IH Hnodup. induction sockets as [|y sockets IH]; simpl; [done|].
      apply not_elem_of_cons in Hx as [Hne Hx].
      rewrite bool_decide_eq_false_2 by congruence. by apply IH.
    + rewrite bool_decide_eq_false_2 by (intros ->; done). by apply IH.
Qed.

Lemma filter_filter_one (p : nat → bool) (sockets : list nat) ws :
  p ws = true →
  List.filter (λ x, bool_decide (x = ws)) (List.filter p sockets)
  = List.filter (λ x, bool_decide (x = ws)) sockets.
Proof.
  intros Hp. induction sockets as [|x sockets IH]; simpl; [done|].
  destruct (p x) eqn:Hx; simpl; rewrite IH; [done|].
  rewrite bool_decide_eq_false_2; [done|]. intros ->. congruence.
Qed.

Lemma filter_wake (sockets : list nat) ws :
  length (List.filter (λ m, bool_decide (m = wake ws)) (List.map wake sockets))
  = length (List.filter (λ x, bool_decide (x = ws)) sockets).
Proof.
  induction sockets as [|x sockets IH]; simpl; [done|].
  rewrite (bool_decide_ext (wake x = wake ws) (x = ws))
    by (unfold wake; split; congruence).
  destruct (bool_decide (x = ws)); simpl; by rewrite IH.
Qed.

(** C9 (as amended).  The handler of a socket's [close] event takes no
    listener away: after any events, the listeners registered for the wake
    event are the sockets of all connections so far, in the order in which
    they connected.  A broadcast calls [send] with the wake token on each
    of them in that order, closed ones included.  When [send] returns on a
    closed socket, the broadcast reaches every listener, and an open socket
    that connected once receives the wake token exactly once.  When [send]
    throws on a closed socket, the broadcast ends with that exception at
    the first closed listener. *)
Theorem watcher_keeps_listeners (send_after_close : option error) (evs : list event) :
  let w := watcher_run send_after_close no_watcher evs in
  let w' := fst (emit send_after_close w) in
  listeners w = connections evs
  ∧ (send_after_close = None →
       snd (emit send_after_close w) = None
       ∧ calls w' = calls w ++ List.map wake (connections evs)
       ∧ delivered w'
         = delivered w ++ List.map wake (List.filter (is_open w) (connections evs))
       ∧ (NoDup (connections evs) →
          ∀ ws, ws ∈ connections evs → is_open w ws = true →
            length (List.filter (λ m, bool_decide (m = wake ws))
                      (List.map wake (List.filter (is_open w) (connections evs)))) = 1))
  ∧ (∀ e before ws after,
       send_after_close = Some e →
       connections evs = before ++ ws :: after →
       forallb (is_open w) before = true →
       is_open w ws = false →
       snd (emit send_after_close w) = Some e
       ∧ calls w' = calls w ++ List.map wake (before ++ [ws])
       ∧ delivered w' = delivered w ++ List.map wake before).
Proof.
  intros w w'.
  assert (listeners w = connections evs) as Hl.
  { unfold w. by rewrite watcher_run_listeners. }
  split; [exact Hl|]. split.
  - intros Hreturns. unfold w', emit. rewrite Hreturns, call_listeners_returning, Hl.
    simpl. repeat split; [done..|].
    intros Hnodup ws Hin Hopen.
    by rewrite filter_wake, filter_filter_one, filter_NoDup_one.
  - intros e before ws after Hthrows Hsplit Hopen Hclosed.
    unfold w', emit. rewrite Hthrows, Hl, Hsplit.
    rewrite (call_listeners_throwing e before ws after w Hopen Hclosed). done.
Qed.

Lemma watcher_keeps_listeners_witness :
  let evs := [Connection 1; Connection 2; Close 1] in
  let w := watcher_run None no_watcher evs in
  let w' := fst (emit None w) in
  let thrown := watcher_run (Some SocketNotOpen) no_watcher evs in
  NoDup (connections evs)
  ∧ 2 ∈ connections evs
  ∧ is_open w 2 = true
  ∧ listeners w = [1; 2]
  ∧ calls w' = calls w ++ [wake 1; wake 2]
  ∧ length (List.filter (λ m, bool_decide (m = wake 2))
              (List.map wake (List.filter (is_open w) (connections evs)))) = 1
  ∧ connections evs = [] ++ 1 :: [2]
  ∧ is_open thrown 1 = false
  ∧ snd (emit (Some SocketNotOpen) thrown) = Some SocketNotOpen
  ∧ delivered (fst (emit (Some SocketNotOpen) thrown)) = delivered thrown.
Proof.
  intros evs w w' thrown.
  assert (NoDup (connections evs)) as Hnodup.
  { apply (bool_decide_unpack _). vm_compute. exact I. }
  assert (2 ∈ connections evs) as Hin.
  { apply (bool_decide_unpack _). vm_compute. exact I. }
  destruct (watcher_keeps_listeners None evs) as (Hl & Hreturns & _).
  destruct (Hreturns eq_refl) as (_ & Hcalls & _ & Honce).
  destruct (watcher_keeps_listeners (Some SocketNotOpen) evs) as (_ & _ & Hthrows).
  destruct (Hthrows SocketNotOpen [] 1 [2] eq_refl eq_refl eq_refl eq_refl)
    as (Hthrown & _ & Hdelivered).
  split; [exact Hnodup|]. split; [exact Hin|]. split; [reflexivity|].
  split; [exact Hl|]. split; [exact Hcalls|].
  split; [exact (Honce Hnodup 2 Hin eq_refl)|]. split; [reflexivity|].
  split; [reflexivity|]. split; [exact Hthrown|].
  etrans; [exact Hdelivered|apply app_nil_r].
Defined.

(** C9 as stated fails: the listener of a closed socket stays registered,
    and the next broadcast calls [send] on the closed socket. *)
Lemma watcher_close_keeps_listener :
  let w := watcher_run None no_watcher [Connection 1; Close 1] in
  1 ∈ closed w
  ∧ listeners w = [1]
  ∧ calls (fst (emit None w)) = calls w ++ [(1, "props_changed"%string)]
  ∧ snd (emit (Some SocketNotOpen)
           (watcher_run (Some SocketNotOpen) no_watcher [Connection 1; Close 1]))
    = Some SocketNotOpen.
Proof.
  split; [apply (bool_decide_unpack _); vm_compute; exact I|].
  repeat split; reflexivity.
Qed.

(** * Further properties *)

(** ** interpolatePagePath: success, literal templates, referenced fields *)

Lemma forallb_false_existsb {A} (f : A → bool) (l : list A) :
  forallb f l = false → existsb (λ x, negb (f x)) l = true.
Proof.
  induction l as [|x l IH]; simpl; [done|].
  destruct (f x); simpl; [exact IH|done].
Qed.

Lemma interpolatePagePath_ok_slash pathTemplate page urlPath :
  interpolatePagePath pathTemplate page = Ok urlPath → startsWith urlPath slash = true.
Proof.
  unfold interpolatePagePath.
  destruct (replace_segments page (segments pathTemplate)) as [body|e]; [|done].
  rewrite result_bind_ok. intros [= <-].
  destruct (startsWith body slash) eqn:E; simpl; [done|reflexivity].
Qed.

(** The path is returned exactly when every placeholder has a value. *)
Theorem interpolatePagePath_succeeds_iff (pathTemplate : string) (page : value) :
  succeeds (interpolatePagePath pathTemplate page)
  = forallb (λ p1, truthy (get page p1)) (placeholders pathTemplate).
Proof.
  unfold interpolatePagePath, placeholders.
  destruct (forallb _ (holes (segments pathTemplate))) eqn:Hall.
  - apply forallb_Forall in Hall.
    by rewrite (replace_segments_truthy _ _ Hall).
  - apply forallb_false_existsb, existsb_Exists in Hall.
    destruct (replace_segments_falsy page (segments pathTemplate))
      as (p1 & before & after & _ & _ & _ & ->); [|done].
    eapply Exists_impl; [exact Hall|]. simpl. by intros q ?%negb_true_iff.
Qed.

Lemma template_scan_cons a s :
  template_scan 0 (String a s)
  = match placeholder_at (String a s) with
    | Some p1 => Hole p1 :: template_scan (S (String.length p1)) s
    | None => Chr a :: template_scan 0 s
    end.
Proof. reflexivity. Qed.

(** Without an opening brace nothing of the template is a placeholder. *)
Lemma template_scan_literal s :
  contains lbrace s = false →
  template_scan 0 s = List.map Chr (list_ascii_of_string s).
Proof.
  induction s as [|a s IH]; [done|].
  cbn [contains]. intros [Ha Hs]%orb_false_iff.
  rewrite template_scan_cons.
  assert (placeholder_at (String a s) = None) as ->.
  { unfold placeholder_at. destruct s; [done|]. by rewrite Ha. }
  cbn [list_ascii_of_string List.map]. by rewrite IH.
Qed.

Lemma replace_segments_chars page l :
  replace_segments page (List.map Chr l) = Ok (string_of_list_ascii l).
Proof.
  induction l as [|a l IH]; simpl; [done|]. by rewrite IH.
Qed.

Lemma interpolatePagePath_literal pathTemplate page :
  contains lbrace pathTemplate = false →
  interpolatePagePath pathTemplate page
  = Ok (if startsWith pathTemplate slash then pathTemplate
        else String slash pathTemplate).
Proof.
  intros Hlit. unfold interpolatePagePath, segments.
  rewrite (template_scan_literal _ Hlit), replace_segments_chars.
  rewrite string_of_list_ascii_of_string, result_bind_ok.
  by destruct (startsWith pathTemplate slash).
Qed.

(** A template without an opening brace is a literal path: whatever the
    record, even [undefined], the result is the template, with a slash put
    in front when it has none. *)
Theorem interpolatePagePath_literal_template (pathTemplate : string) (page : value) :
  contains lbrace pathTemplate = false →
  placeholders pathTemplate = []
  ∧ interpolatePagePath pathTemplate page
    = Ok (if startsWith pathTemplate slash then pathTemplate
          else String slash pathTemplate).
Proof.
  intros Hlit. split; [|by apply interpolatePagePath_literal].
  unfold placeholders, segments. rewrite (template_scan_literal _ Hlit).
  induction (list_ascii_of_string pathTemplate) as [|a l IH]; simpl; done.
Qed.

Lemma interpolatePagePath_literal_template_witness :
  contains lbrace "docs/intro" = false
  ∧ interpolatePagePath "docs/intro" VUndefined = Ok "/docs/intro".
Proof.
  split; [reflexivity|].
  destruct (interpolatePagePath_literal_template "docs/intro" VUndefined eq_refl)
    as [_ Hpath].
  exact Hpath.
Defined.

(** A returned path that has no opening brace is a fixed point: given as
    a template again, with any record, it comes back unchanged. *)
Theorem interpolatePagePath_fixed_point (pathTemplate : string) (page page' : value)
    (urlPath : string) :
  interpolatePagePath pathTemplate page = Ok urlPath →
  contains lbrace urlPath = false →
  interpolatePagePath urlPath page' = Ok urlPath.
Proof.
  intros Hok Hlit. rewrite (interpolatePagePath_literal _ _ Hlit).
  by rewrite (interpolatePagePath_ok_slash _ _ _ Hok).
Qed.

Lemma interpolatePagePath_fixed_point_witness :
  interpolatePagePath "posts/{slug}" (VObj {[ "slug" := VStr "/hello-world/" ]})
  = Ok "/posts/hello-world"
  ∧ contains lbrace "/posts/hello-world" = false
  ∧ interpolatePagePath "/posts/hello-world" VNull = Ok "/posts/hello-world".
Proof.
  assert (interpolatePagePath "posts/{slug}" (VObj {[ "slug" := VStr "/hello-world/" ]})
          = Ok "/posts/hello-world") as Hok by (vm_compute; reflexivity).
  split; [exact Hok|]. split; [reflexivity|].
  exact (interpolatePagePath_fixed_point _ _ VNull _ Hok eq_refl).
Defined.

Lemma replace_segments_same_fields page page' segs :
  Forall (λ p1, get page p1 = get page' p1) (holes segs) →
  match replace_segments page segs, replace_segments page' segs with
  | Ok body, Ok body' => body = body'
  | Err (NoValueInField p1 r), Err (NoValueInField q1 r') =>
      p1 = q1 ∧ r = page ∧ r' = page'
  | _, _ => False
  end.
Proof.
  induction segs as [|[a|p1] segs IH]; simpl; intros Hsame.
  - done.
  - specialize (IH Hsame).
    destruct (replace_segments page segs) as [body|[]],
             (replace_segments page' segs) as [body'|[]]; simpl; try done.
    by rewrite IH.
  - apply Forall_cons in Hsame as [Hp Hsame]. specialize (IH Hsame).
    unfold replacer. rewrite <- Hp.
    destruct (truthy (get page p1)); simpl; [|done].
    destruct (replace_segments page segs) as [body|[]],
             (replace_segments page' segs) as [body'|[]]; simpl; try done.
    by rewrite IH.
Qed.

(** The result depends on the record through the fields the template
    names only: two records that agree on them get the same path, or fail
    at the same field. *)
Theorem interpolatePagePath_same_fields (pathTemplate : string) (page page' : value) :
  Forall (λ p1, get page p1 = get page' p1) (placeholders pathTemplate) →
  match interpolatePagePath pathTemplate page, interpolatePagePath pathTemplate page' with
  | Ok urlPath, Ok urlPath' => urlPath = urlPath'
  | Err (NoValueInField p1 r), Err (NoValueInField q1 r') =>
      p1 = q1 ∧ r = page ∧ r' = page'
  | _, _ => False
  end.
Proof.
  intros Hsame. unfold interpolatePagePath.
  pose proof (replace_segments_same_fields page page' (segments pathTemplate) Hsame) as H.
  destruct (replace_segments page (segments pathTemplate)) as [body|[]],
           (replace_segments page' (segments pathTemplate)) as [body'|[]];
    simpl in *; try done.
  by rewrite H.
Qed.

Lemma interpolatePagePath_same_fields_witness :
  Forall (λ p1, get Sample.about p1
                = get (VObj {[ "slug" := VStr "about"; "title" := VStr "About us" ]}) p1)
         (placeholders "/{slug}")
  ∧ interpolatePagePath "/{slug}" Sample.about
    = interpolatePagePath "/{slug}"
        (VObj {[ "slug" := VStr "about"; "title" := VStr "About us" ]}).
Proof.
  assert (Forall (λ p1, get Sample.about p1
                = get (VObj {[ "slug" := VStr "about"; "title" := VStr "About us" ]}) p1)
         (placeholders "/{slug}")) as Hsame.
  { change (placeholders "/{slug}") with ["slug"%string].
    constructor; [vm_compute; reflexivity|constructor]. }
  split; [exact Hsame|].
  pose proof (interpolatePagePath_same_fields "/{slug}" Sample.about _ Hsame) as H.
  destruct (interpolatePagePath "/{slug}" Sample.about) as [urlPath|e] eqn:E1,
           (interpolatePagePath "/{slug}"
              (VObj {[ "slug" := VStr "about"; "title" := VStr "About us" ]}))
             as [urlPath'|e'] eqn:E2.
  - by rewrite H.
  - by destruct H.
  - vm_compute in E1. discriminate.
  - vm_compute in E1. discriminate.
Defined.

(** ** reducePropsMap: the two kinds of props, and no records *)

Lemma find_head data predicate :
  find data predicate = default VUndefined (head (filter data predicate)).
Proof.
  unfold find, filter. induction data as [|r data IH]; simpl; [done|].
  by destruct (predicate r).
Qed.

Lemma member_object (fields : gmap string value) key :
  member (VObj fields) key = default VUndefined (fields !! key).
Proof. reflexivity. Qed.

(** A prop with [single] is the head of what the same predicate gives
    without [single], and [undefined] when that array is empty. *)
Theorem reducePropsMap_single_is_head (data : list value)
    (defs : gmap string PropDefinition) (one many : string)
    (propDef propDef' : PropDefinition) :
  defs !! one = Some propDef →
  defs !! many = Some propDef' →
  propDef_single propDef = true →
  propDef_single propDef' = false →
  (∀ r, propDef_predicate propDef r = propDef_predicate propDef' r) →
  ∃ records,
    member (reducePropsMap (PropsObject defs) data) many = VArr records
    ∧ member (reducePropsMap (PropsObject defs) data) one
      = default VUndefined (head records).
Proof.
  intros Hone Hmany Hsingle Hmultiple Hsame.
  rewrite reducePropsMap_object, !member_object, !lookup_fmap, Hone, Hmany. simpl.
  rewrite Hsingle, Hmultiple.
  exists (filter data (propDef_predicate propDef')). split; [done|].
  rewrite find_head. unfold filter. by rewrite (filter_ext _ _ Hsame).
Qed.

Lemma reducePropsMap_single_is_head_witness :
  let defs : gmap string PropDefinition :=
    {[ "main" := {| propDef_single := true; propDef_predicate := truthy |};
       "all" := {| propDef_single := false; propDef_predicate := truthy |} ]} in
  ∃ records,
    member (reducePropsMap (PropsObject defs) [VNull; Sample.about; Sample.post]) "all"
    = VArr records
    ∧ member (reducePropsMap (PropsObject defs) [VNull; Sample.about; Sample.post]) "main"
      = default VUndefined (head records).
Proof.
  intros defs.
  apply (reducePropsMap_single_is_head _ defs "main" "all"
           {| propDef_single := true; propDef_predicate := truthy |}
           {| propDef_single := false; propDef_predicate := truthy |});
    reflexivity.
Defined.

(** Without records every prop with [single] is [undefined] and every
    other prop is the empty array. *)
Theorem reducePropsMap_no_records (defs : gmap string PropDefinition) (propName : string) :
  own_props (reducePropsMap (PropsObject defs) []) !! propName
  = (λ propDef, if propDef_single propDef then VUndefined else VArr [])
      <$> defs !! propName.
Proof.
  rewrite reducePropsMap_object. simpl. by rewrite lookup_fmap.
Qed.

(** ** reducePages: what the entries are *)

Lemma Forall_flat_map {A B} (P : B → Prop) (g : A → list B) (l : list A) :
  (∀ x, x ∈ l → Forall P (g x)) → Forall P (flat_map g l).
Proof.
  induction l as [|x l IH]; simpl; intros Hg; [constructor|].
  apply Forall_app. split.
  - apply Hg. by left.
  - apply IH. intros y Hy. apply Hg. by right.
Qed.

Lemma length_flat_map_le {A B} (g : A → list B) (l : list A) (n : nat) :
  (∀ x, length (g x) ≤ n) → length (flat_map g l) ≤ length l * n.
Proof.
  intros Hg. induction l as [|x l IH]; simpl; [done|].
  rewrite length_app. specialize (Hg x). lia.
Qed.

Lemma interpolate_item_ok_slash item urlPath :
  interpolate_item item = Ok urlPath → startsWith urlPath slash = true.
Proof.
  unfold interpolate_item, read_property.
  destruct (is_nullish item); [done|]. rewrite !result_bind_ok.
  destruct (member item "path"); try done.
  apply interpolatePagePath_ok_slash.
Qed.

Lemma assign_path item urlPath :
  assign item (VObj {[ "path" := VStr urlPath ]})
  = VObj (<[ "path" := VStr urlPath ]> (own_props item)).
Proof. unfold assign. simpl. by rewrite insert_union_singleton_l. Qed.


Lemma length_page_entries pageTypeDef data page :
  length (page_entries pageTypeDef data page) ≤ 1.
Proof. unfold page_entries. destruct (interpolatePagePath _ page); simpl; lia. Qed.


(** The callback of the function mode gives the accumulator back for an
    item that is [undefined] or [null], or whose [path] is not a string:
    the [TypeError] does not leave it. *)
Theorem reduceItem_without_string_path (accum : list value) (item : value) :
  (∀ s, member item "path" ≠ VStr s) →
  interpolate_item item = Err TypeError
  ∧ reduceItem accum item = Ok accum.
Proof.
  intros Hpath.
  assert (interpolate_item item = Err TypeError) as Herr.
  { unfold interpolate_item, read_property.
    destruct (is_nullish item); [done|]. rewrite !result_bind_ok.
    destruct (member item "path") as [| | | |s| |] eqn:E; try done.
    by destruct (Hpath s). }
  split; [exact Herr|]. unfold reduceItem. by rewrite Herr.
Qed.

Lemma reduceItem_without_string_path_witness :
  (∀ s, member (VObj {[ "path" := VNum 5; "page" := Sample.about ]}) "path" ≠ VStr s)
  ∧ reduceItem [Sample.post] (VObj {[ "path" := VNum 5; "page" := Sample.about ]})
    = Ok [Sample.post].
Proof.
  assert (∀ s, member (VObj {[ "path" := VNum 5; "page" := Sample.about ]}) "path" ≠ VStr s)
    as Hpath.
  { intros s. vm_compute. discriminate. }
  split; [exact Hpath|].
  by destruct (reduceItem_without_string_path [Sample.post] _ Hpath).
Defined.

Lemma item_entries_literal (fields : gmap string value) p :
  fields !! "path" = Some (VStr p) →
  startsWith p slash = true →
  contains lbrace p = false →
  item_entries (VObj fields) = [VObj fields].
Proof.
  intros Hpath Hslash Hlit. unfold item_entries, interpolate_item, read_property.
  cbn [is_nullish]. rewrite !result_bind_ok, !member_object, Hpath.
  unfold default, from_option, id.
  rewrite (interpolatePagePath_literal _ _ Hlit), Hslash.
  rewrite assign_path. cbn [own_props]. by rewrite insert_id.
Qed.

(** The function mode leaves the items alone when each is an object whose
    [path] is a literal path: a string that starts with a slash and has
    no opening brace. *)
Theorem reducePages_function_literal_paths (f : list value → list value)
    (data : list value) :
  Forall (λ item, ∃ (fields : gmap string value) p,
            item = VObj fields
            ∧ fields !! "path" = Some (VStr p)
            ∧ startsWith p slash = true
            ∧ contains lbrace p = false)
         (f data) →
  reducePages (PagesFunction f) data = Ok (f data).
Proof.
  intros Hitems. rewrite reducePages_function. f_equal.
  induction Hitems as [|item items (fields & p & -> & Hpath & Hslash & Hlit) _ IH];
    simpl; [done|].
  by rewrite (item_entries_literal fields p), IH.
Qed.

Lemma reducePages_function_literal_paths_witness :
  let items := [VObj {[ "path" := VStr "/"; "page" := Sample.post ]};
                VObj {[ "path" := VStr "/about"; "page" := Sample.about ]}] in
  reducePages (PagesFunction (λ _, items)) [Sample.post; Sample.about] = Ok items.
Proof.
  intros items.
  apply (reducePages_function_literal_paths (λ _, items)).
  repeat constructor.
  - exists {[ "path" := VStr "/"; "page" := Sample.post ]}, "/"%string.
    repeat split; reflexivity.
  - exists {[ "path" := VStr "/about"; "page" := Sample.about ]}, "/about"%string.
    repeat split; reflexivity.
Defined.

Lemma elem_of_List_filter {A} (p : A → bool) (l : list A) x :
  x ∈ List.filter p l ↔ x ∈ l ∧ p x = true.
Proof. rewrite !list_elem_of_In. apply filter_In. Qed.

Lemma member_pageDescriptor urlPath page props key :
  member (pageDescriptor urlPath page props) key
  = default VUndefined (own_props (pageDescriptor urlPath page props) !! key).
Proof. reflexivity. Qed.

(** In the declarative mode, when the reduced props of the definitions
    have no property called [path] or [page], every entry comes from a
    definition and a record of the data that satisfies its predicate: its
    [page] is that record and its [path] the interpolated template, which
    starts with a slash. *)
Theorem reducePages_declarative_entries (defs : list PageTypeDefinition)
    (data : list value) :
  Forall (λ pageTypeDef,
            own_props (reducePropsMap (pageTypeDef_props pageTypeDef) data) !! "path" = None
            ∧ own_props (reducePropsMap (pageTypeDef_props pageTypeDef) data) !! "page" = None)
         defs →
  ∃ entries,
    reducePages (PagesList defs) data = Ok entries
    ∧ Forall (λ entry, ∃ pageTypeDef page urlPath,
                pageTypeDef ∈ defs
                ∧ page ∈ data
                ∧ pageTypeDef_predicate pageTypeDef page = true
                ∧ interpolatePagePath (pathTemplate_of pageTypeDef) page = Ok urlPath
                ∧ startsWith urlPath slash = true
                ∧ member entry "path" = VStr urlPath
                ∧ member entry "page" = page)
             entries.
Proof.
  intros Hprops. eexists. split; [apply reducePages_list|].
  apply Forall_flat_map. intros pageTypeDef Hdef.
  apply Forall_flat_map. intros page [Hpage Hpred]%elem_of_List_filter.
  unfold page_entries.
  destruct (interpolatePagePath (pathTemplate_of pageTypeDef) page) as [urlPath|e] eqn:E;
    [|constructor].
  constructor; [|constructor]. exists pageTypeDef, page, urlPath.
  rewrite Forall_forall in Hprops.
  destruct (Hprops pageTypeDef Hdef) as [Hnopath Hnopage].
  repeat split; [done..| | |].
  - exact (interpolatePagePath_ok_slash _ _ _ E).
  - by rewrite member_pageDescriptor, pageDescriptor_lookup, Hnopath.
  - by rewrite member_pageDescriptor, pageDescriptor_lookup, Hnopage.
Qed.

Lemma reducePages_declarative_entries_witness :
  ∃ entries,
    reducePages (PagesList [Sample.page_with_first]) [Sample.settings; Sample.about]
    = Ok entries
    ∧ Forall (λ entry, ∃ pageTypeDef page urlPath,
                pageTypeDef ∈ [Sample.page_with_first]
                ∧ page ∈ [Sample.settings; Sample.about]
                ∧ pageTypeDef_predicate pageTypeDef page = true
                ∧ interpolatePagePath (pathTemplate_of pageTypeDef) page = Ok urlPath
                ∧ startsWith urlPath slash = true
                ∧ member entry "path" = VStr urlPath
                ∧ member entry "page" = page)
             entries.
Proof.
  apply reducePages_declarative_entries.
  constructor; [|constructor]. split; vm_compute; reflexivity.
Defined.

(** The pages of a list of definitions are the pages of its parts, one
    after the other: definitions that match the same record each add
    their entry, and a definition given twice adds its entries twice. *)
Theorem reducePages_declarative_app (defs defs' : list PageTypeDefinition)
    (data : list value) :
  ∃ entries entries',
    reducePages (PagesList defs) data = Ok entries
    ∧ reducePages (PagesList defs') data = Ok entries'
    ∧ reducePages (PagesList (defs ++ defs')) data = Ok (entries ++ entries').
Proof.
  eexists _, _. rewrite !reducePages_list. repeat split.
  by rewrite flat_map_app.
Qed.

(** There are at most as many pages as pairs of a definition and a
    record; without records, or without definitions, there is none. *)
Theorem reducePages_declarative_bound (defs : list PageTypeDefinition)
    (data : list value) :
  (∃ entries,
     reducePages (PagesList defs) data = Ok entries
     ∧ length entries ≤ length defs * length data)
  ∧ reducePages (PagesList defs) [] = Ok []
  ∧ reducePages (PagesList []) data = Ok [].
Proof.
  split; [|split].
  - eexists. split; [apply reducePages_list|].
    apply length_flat_map_le. intros pageTypeDef.
    pose proof (length_flat_map_le (page_entries pageTypeDef data)
                  (filter data (pageTypeDef_predicate pageTypeDef)) 1
                  (length_page_entries pageTypeDef data)) as Hle.
    pose proof (filter_length_le (pageTypeDef_predicate pageTypeDef) data) as Hfilter.
    unfold filter in *. lia.
  - rewrite reducePages_list. f_equal.
    induction defs as [|pageTypeDef defs IH]; simpl; [done|exact IH].
  - done.
Qed.

(** ** transform and bootstrap *)

Lemma reduceAndTransformData_ok data commonProps pages :
  ∃ entries,
    reducePages pages data = Ok entries
    ∧ reduceAndTransformData data commonProps pages
      = Ok (VObj {[ "props" := reducePropsMap commonProps data;
                    "pages" := VArr entries ]}).
Proof.
  unfold reduceAndTransformData.
  destruct pages as [f|defs]; eexists;
    (split; [first [apply reducePages_function|apply reducePages_list]|]).
  - by rewrite reducePages_function.
  - by rewrite reducePages_list.
Qed.

Lemma write_error_None disk path :
  write_error disk path = None →
  ensureFile_error disk path = None ∧ writeJson_error disk path = None.
Proof. unfold write_error. by destruct (ensureFile_error disk path). Qed.

(** With a declarative configuration, live updates off and a cache file
    that can be written, [transform] resolves to the records it was
    given, writes the snapshot of the reduced props and pages to the
    configured file, and does nothing else: no other file changes and no
    listener is called. *)
Theorem transform_without_liveUpdate (cwd : string) (isDev : bool)
    (JSON_stringify : value → string) (send_after_close : option error) (disk : Disk)
    (options : Options) (objects : list value) (w : World)
    (defs : gmap string PropDefinition) (pageDefs : list PageTypeDefinition) :
  commonProps options = PropsObject defs →
  pages options = PagesList pageDefs →
  truthy (liveUpdate_of isDev options) = false →
  write_error disk (cacheFilePath_of cwd options) = None →
  ∃ entries,
    reducePages (pages options) objects = Ok entries
    ∧ transform cwd isDev JSON_stringify send_after_close disk options objects w
      = ({| files :=
              <[ cacheFilePath_of cwd options :=
                   JSON_stringify
                     (VObj {[ "props" := reducePropsMap (commonProps options) objects;
                              "pages" := VArr entries ]}) ]> (files w);
            serving := serving w;
            watcher := watcher w |},
         Ok objects).
Proof.
  intros _ _ Hquiet [Hensure Hwrite]%write_error_None.
  destruct (reduceAndTransformData_ok objects (commonProps options) (pages options))
    as (entries & Hpages & Hdata).
  exists entries. split; [exact Hpages|].
  unfold transform. rewrite Hdata, Hquiet, Hensure, Hwrite.
  by rewrite insert_fse_ensureFile.
Qed.

Lemma transform_without_liveUpdate_witness :
  truthy (liveUpdate_of true SampleProducer.quiet_options) = false
  ∧ write_error SampleSnapshot.sound_disk
      (cacheFilePath_of SampleSnapshot.cwd SampleProducer.quiet_options) = None
  ∧ snd (transform SampleSnapshot.cwd true SampleSnapshot.stringify None
           SampleSnapshot.sound_disk
           SampleProducer.quiet_options [Sample.about] SampleProducer.world_after_close)
    = Ok [Sample.about]
  ∧ watcher (fst (transform SampleSnapshot.cwd true SampleSnapshot.stringify None
                    SampleSnapshot.sound_disk
                    SampleProducer.quiet_options [Sample.about]
                    SampleProducer.world_after_close))
    = watcher SampleProducer.world_after_close.
Proof.
  destruct (transform_without_liveUpdate SampleSnapshot.cwd true SampleSnapshot.stringify
              None SampleSnapshot.sound_disk SampleProducer.quiet_options [Sample.about]
              SampleProducer.world_after_close ∅ [Sample.page_with_first]
              eq_refl eq_refl eq_refl eq_refl) as (entries & _ & ->).
  repeat split.
Defined.




(** When [fse.ensureFile] or [fse.writeJson] throws, [transform] rejects
    with that exception and emits nothing: no listener is called, and no
    file other than the configured one is touched. *)
Theorem transform_write_fails (cwd : string) (isDev : bool)
    (JSON_stringify : value → string) (send_after_close : option error) (disk : Disk)
    (options : Options) (objects : list value) (w : World) (e : error) :
  write_error disk (cacheFilePath_of cwd options) = Some e →
  let out := transform cwd isDev JSON_stringify send_after_close disk options objects w in
  snd out = Err e
  ∧ watcher (fst out) = watcher w
  ∧ ∀ path, path ≠ cacheFilePath_of cwd options →
            files (fst out) !! path = files w !! path.
Proof.
  intros Herror out. split; [|split].
  - unfold out, transform, write_error in *.
    destruct (reduceAndTransformData_ok objects (commonProps options) (pages options))
      as (entries & _ & Hdata).
    rewrite Hdata.
    destruct (ensureFile_error disk _); [by injection Herror as ->|].
    rewrite Herror. done.
  - unfold out, transform, write_error in *.
    destruct (reduceAndTransformData _ _ _); [|done].
    destruct (ensureFile_error disk _); [done|].
    rewrite Herror. done.
  - intros path Hne. by apply transform_files.
Qed.

Lemma transform_write_fails_witness :
  let out := transform SampleSnapshot.cwd false SampleSnapshot.stringify None
               SampleSnapshot.read_only_disk SampleProducer.live_options [Sample.about]
               SampleProducer.world_after_close in
  write_error SampleSnapshot.read_only_disk
    (cacheFilePath_of SampleSnapshot.cwd SampleProducer.live_options) = Some WriteError
  ∧ snd out = Err WriteError
  ∧ watcher (fst out) = watcher SampleProducer.world_after_close.
Proof.
  intros out.
  destruct (transform_write_fails SampleSnapshot.cwd false SampleSnapshot.stringify None
              SampleSnapshot.read_only_disk SampleProducer.live_options [Sample.about]
              SampleProducer.world_after_close WriteError eq_refl) as (Herr & Hwatcher & _).
  split; [reflexivity|]. split; [exact Herr|exact Hwatcher].
Defined.



Lemma set_in_props_object (o fields : gmap string value) key v :
  o !! "props" = Some (VObj fields) →
  set_in_props (VObj o) key v = VObj (<[ "props" := VObj (<[ key := v ]> fields) ]> o).
Proof.
  intros Hprops. unfold set_in_props. by rewrite member_object, Hprops.
Qed.

(** With a declarative configuration, live updates on and a cache file
    that can be written, the snapshot [transform] writes has the three
    live-update settings among its props: the configured flag, the port
    (the client port, else the server port, else 8088, an option set to
    [undefined] counting as absent) and the event name.  They replace
    common props of the same names; the other props and the pages are as
    reduced. *)
Theorem transform_liveUpdate_props (cwd : string) (isDev : bool)
    (JSON_stringify : value → string) (send_after_close : option error) (disk : Disk)
    (options : Options) (objects : list value) (w : World)
    (defs : gmap string PropDefinition) (pageDefs : list PageTypeDefinition) :
  commonProps options = PropsObject defs →
  pages options = PagesList pageDefs →
  truthy (liveUpdate_of isDev options) = true →
  write_error disk (cacheFilePath_of cwd options) = None →
  ∃ entries written,
    reducePages (PagesList pageDefs) objects = Ok entries
    ∧ files (fst (transform cwd isDev JSON_stringify send_after_close disk options objects w))
        !! cacheFilePath_of cwd options
      = Some (JSON_stringify (VObj {[ "props" := VObj written; "pages" := VArr entries ]}))
    ∧ written !! "liveUpdate" = Some (option_or (liveUpdate options) (VBool isDev))
    ∧ written !! "liveUpdateWsPort"
      = Some (option_or (liveUpdateWsClientPort options)
                (option_or (liveUpdateWsPort options) (VNum 8088)))
    ∧ written !! "liveUpdateEventName" = Some (VStr "props_changed")
    ∧ ∀ key,
        key ≠ "liveUpdate"%string → key ≠ "liveUpdateWsPort"%string →
        key ≠ "liveUpdateEventName"%string →
        written !! key = own_props (reducePropsMap (PropsObject defs) objects) !! key.
Proof.
  intros Hprops Hpages Hlive [Hensure Hwrite]%write_error_None.
  destruct (reduceAndTransformData_ok objects (commonProps options) (pages options))
    as (entries & Hentries & Hdata).
  rewrite Hpages in Hentries. exists entries. eexists. split; [exact Hentries|].
  unfold transform. rewrite Hdata, Hlive, Hensure, Hwrite, Hprops.
  rewrite (reducePropsMap_object objects defs).
  rewrite (set_in_props_object _ _ "liveUpdate") by done.
  rewrite (set_in_props_object _ _ "liveUpdateWsPort") by (by rewrite lookup_insert_eq).
  rewrite (set_in_props_object _ _ "liveUpdateEventName") by (by rewrite lookup_insert_eq).
  rewrite !insert_insert_eq.
  split.
  - destruct (emit send_after_close (watcher w)) as [watcher' thrown]. simpl.
    by rewrite lookup_insert_eq.
  - split; [|split; [|split]].
    + by rewrite lookup_insert_ne, lookup_insert_ne, lookup_insert_eq.
    + by rewrite lookup_insert_ne, lookup_insert_eq.
    + by rewrite lookup_insert_eq.
    + intros key H1 H2 H3. by rewrite !lookup_insert_ne.
Qed.

Lemma transform_liveUpdate_props_witness :
  ∃ entries written,
    files (fst (transform SampleSnapshot.cwd false SampleSnapshot.stringify None
                  SampleSnapshot.sound_disk
                  SampleProducer.live_options [Sample.about] SampleSnapshot.fresh_world))
      !! DEFAULT_FILE_CACHE_PATH SampleSnapshot.cwd
    = Some (SampleSnapshot.stringify
              (VObj {[ "props" := VObj written; "pages" := VArr entries ]}))
    ∧ written !! "liveUpdateWsPort" = Some (VNum 9000)
    ∧ written !! "liveUpdateEventName" = Some (VStr "props_changed").
Proof.
  destruct (transform_liveUpdate_props SampleSnapshot.cwd false SampleSnapshot.stringify
              None SampleSnapshot.sound_disk SampleProducer.live_options [Sample.about]
              SampleSnapshot.fresh_world ∅ [Sample.page_with_first]
              eq_refl eq_refl eq_refl eq_refl)
    as (entries & written & _ & Hfile & _ & Hport & Hname & _).
  exists entries, written. split; [exact Hfile|]. split; [exact Hport|exact Hname].
Defined.

(** ** The producer and the client together *)








(** ** SourcebitDataClient: bounds and listed paths *)




(** A path that [getStaticPaths] lists is found by the lookup: the result
    has every property of the first page with that path that no shared
    prop replaces, and its [path] is the listed path unless a shared prop
    is called [path]. *)
Theorem getPropsFromCMSDataForPagePath_listed_path (data : Snapshot) (pagePath : string) :
  VStr pagePath ∈ List.map page_path (snapshot_pages data) →
  let shared := if truthy (props data) then own_props (props data) else ∅ in
  ∃ page,
    List.find (matches_path pagePath) (snapshot_pages data) = Some page
    ∧ getPropsFromCMSDataForPagePath data pagePath = VObj (shared ∪ page)
    ∧ (shared !! "path" = None →
       member (getPropsFromCMSDataForPagePath data pagePath) "path" = VStr pagePath).
Proof.
  intros Hlisted shared.
  pose proof (find_first_page pagePath (snapshot_pages data)) as Hfind.
  unfold getPropsFromCMSDataForPagePath.
  destruct (List.find _ (snapshot_pages data)) as [page|].
  - destruct Hfind as (before & after & _ & _ & Hpath).
    assert (assign (VObj page) (props data) = VObj (shared ∪ page)) as ->.
    { unfold assign, shared. destruct (truthy (props data)); simpl; [done|].
      by rewrite (left_id_L ∅ (∪)). }
    exists page. split; [done|]. split; [done|].
    intros Hshared. rewrite member_object, lookup_union, Hshared.
    rewrite (left_id_L None _). exact Hpath.
  - apply list_elem_of_fmap in Hlisted as (page & Hpage & Hin).
    rewrite Forall_forall in Hfind. by destruct (Hfind page Hin).
Qed.

Lemma getPropsFromCMSDataForPagePath_listed_path_witness :
  VStr "/blog" ∈ List.map page_path (snapshot_pages SampleSnapshot.data)
  ∧ ∃ page,
      List.find (matches_path "/blog") (snapshot_pages SampleSnapshot.data) = Some page
      ∧ member (getPropsFromCMSDataForPagePath SampleSnapshot.data "/blog") "path"
        = VStr "/blog".
Proof.
  assert (VStr "/blog" ∈ List.map page_path (snapshot_pages SampleSnapshot.data)) as Hin.
  { right. left. }
  split; [exact Hin|].
  destruct (getPropsFromCMSDataForPagePath_listed_path SampleSnapshot.data "/blog" Hin)
    as (page & Hfind & _ & Hpath).
  exists page. split; [exact Hfind|]. apply Hpath. vm_compute. reflexivity.
Defined.

(** ** startStaticPropsWatcher: what is sent *)

Lemma watcher_invariant_send send_after_close w ws message :
  watcher_invariant w →
  ws ∈ listeners w →
  message = LIVE_UPDATE_EVENT_NAME →
  watcher_invariant (fst (ws_send send_after_close w ws message)).
Proof.
  intros (Hcalls & Hhello & Hsub) Hws ->. unfold ws_send, watcher_invariant.
  destruct (bool_decide (ws ∈ closed w)); simpl.
  - split; [|split].
    + apply Forall_app. split; [done|]. constructor; [|constructor]. simpl. by split; [right|].
    + rewrite List.filter_app, length_app. simpl. lia.
    + by apply sublist_inserts_r.
  - split; [|split].
    + apply Forall_app. split; [done|]. constructor; [|constructor]. simpl. by split; [right|].
    + rewrite List.filter_app, length_app. simpl. lia.
    + by apply sublist_app.
Qed.

Lemma watcher_invariant_call_listeners send_after_close sockets :
  ∀ w,
    Forall (λ ws, ws ∈ listeners w) sockets →
    watcher_invariant w →
    watcher_invariant (fst (call_listeners send_after_close w sockets)).
Proof.
  induction sockets as [|ws sockets IH]; intros w Hsockets Hinv; simpl; [done|].
  apply Forall_cons in Hsockets as [Hws Hsockets].
  pose proof (watcher_invariant_send send_after_close w ws LIVE_UPDATE_EVENT_NAME
                Hinv Hws eq_refl) as Hinv'.
  destruct (ws_send_listeners send_after_close w ws LIVE_UPDATE_EVENT_NAME) as [Hl _].
  destruct (ws_send send_after_close w ws LIVE_UPDATE_EVENT_NAME) as [w' [e|]];
    simpl in *; [done|].
  apply IH; [|done]. by rewrite Hl.
Qed.

Lemma watcher_invariant_connection send_after_close w ws :
  watcher_invariant w →
  watcher_invariant (fst (on_connection send_after_close w ws)).
Proof.
  intros (Hcalls & Hhello & Hsub). unfold on_connection, ws_send, watcher_invariant. simpl.
  assert (Forall (λ m : nat * string,
                    (snd m = "hello"%string ∨ snd m = LIVE_UPDATE_EVENT_NAME)
                    ∧ fst m ∈ listeners w ++ [ws])
                 (calls w ++ [(ws, "hello"%string)])) as Hcalls'.
  { apply Forall_app. split.
    - eapply Forall_impl; [exact Hcalls|]. simpl. intros m [Hm Hin].
      split; [done|]. apply elem_of_app. by left.
    - constructor; [|constructor]. simpl. split; [by left|].
      apply elem_of_app. right. by left. }
  destruct (bool_decide (ws ∈ closed w)); simpl; (split; [exact Hcalls'|split]).
  - rewrite List.filter_app, !length_app. simpl. lia.
  - by apply sublist_inserts_r.
  - rewrite List.filter_app, !length_app. simpl. lia.
  - by apply sublist_app.
Qed.

Lemma watcher_invariant_step send_after_close w ev :
  watcher_invariant w → watcher_invariant (watcher_step send_after_close w ev).
Proof.
  intros Hinv. destruct ev as [ws|ws message|ws|]; simpl.
  - by apply watcher_invariant_connection.
  - done.
  - exact Hinv.
  - apply watcher_invariant_call_listeners; [|done].
    apply Forall_forall. by intros ws Hws.
Qed.

Lemma watcher_invariant_run send_after_close evs :
  ∀ w, watcher_invariant w → watcher_invariant (watcher_run send_after_close w evs).
Proof.
  induction evs as [|ev evs IH]; intros w Hinv; [done|].
  apply IH. by apply watcher_invariant_step.
Qed.

(** After any events the server has called [send] with two messages
    only: the greeting, once for every connection and never in a
    broadcast, and the event name.  Every call went to a socket that had
    connected, and the messages that went out are among the calls, in the
    same order. *)
Theorem watcher_sends_greeting_and_event (send_after_close : option error)
    (evs : list event) :
  let w := watcher_run send_after_close no_watcher evs in
  Forall (λ m, (snd m = "hello"%string ∨ snd m = "props_changed"%string)
               ∧ fst m ∈ connections evs) (calls w)
  ∧ length (List.filter (λ m, String.eqb (snd m) "hello") (calls w))
    = length (connections evs)
  ∧ sublist (delivered w) (calls w).
Proof.
  intros w.
  assert (watcher_invariant w) as (Hcalls & Hhello & Hsub).
  { apply watcher_invariant_run. repeat split; [constructor|constructor]. }
  assert (listeners w = connections evs) as Hl.
  { unfold w. by rewrite watcher_run_listeners. }
  rewrite Hl in *. done.
Qed.

(** ** The default template, and reducing twice *)

(** With the default template ['/{slug}'] the path of a record whose
    [slug] is a non-empty string is a slash followed by the slug without
    the slashes at its two ends; a slug made of slashes only gives the
    root path. *)
Theorem interpolatePagePath_default_template (page : value) (slug : string) :
  get page "slug" = VStr slug →
  slug ≠ EmptyString →
  interpolatePagePath "/{slug}" page = Ok (String slash (trim (VStr slug) slash))
  ∧ ∀ predicate props,
      pathTemplate_of {| pageTypeDef_path := None;
                         pageTypeDef_predicate := predicate;
                         pageTypeDef_props := props |} = "/{slug}"%string.
Proof.
  intros Hslug Hne. split; [|done].
  unfold interpolatePagePath.
  change (segments "/{slug}") with [Chr slash; Hole "slug"].
  cbn [replace_segments]. unfold replacer. rewrite Hslug.
  assert (truthy (VStr slug) = true) as ->.
  { simpl. apply negb_true_iff. by apply String.eqb_neq. }
  cbn [negb]. rewrite !result_bind_ok, append_empty_r. reflexivity.
Qed.

Lemma interpolatePagePath_default_template_witness :
  get (VObj {[ "slug" := VStr "//" ]}) "slug" = VStr "//"
  ∧ interpolatePagePath "/{slug}" (VObj {[ "slug" := VStr "//" ]}) = Ok "/".
Proof.
  assert (get (VObj {[ "slug" := VStr "//" ]}) "slug" = VStr "//") as Hslug
    by (vm_compute; reflexivity).
  split; [exact Hslug|].
  destruct (interpolatePagePath_default_template _ "//" Hslug) as [Hpath _]; [done|].
  exact Hpath.
Defined.

(** Reducing in the function mode is idempotent on paths without braces:
    when no path of the entries has an opening brace, a function that
    returns these entries gets them back unchanged. *)
Theorem reducePages_function_idempotent (f : list value → list value)
    (data data' : list value) (entries : list value) :
  reducePages (PagesFunction f) data = Ok entries →
  Forall (λ entry, ∀ p, member entry "path" = VStr p → contains lbrace p = false)
         entries →
  reducePages (PagesFunction (λ _, entries)) data' = Ok entries.
Proof.
  rewrite !reducePages_function. intros [= <-] Hlit. f_equal.
  induction (f data) as [|item items IH]; simpl in *; [done|].
  apply Forall_app in Hlit as [Hitem Hitems].
  rewrite flat_map_app, (IH Hitems). f_equal.
  assert (item_entries item = []
          ∨ ∃ urlPath,
              interpolate_item item = Ok urlPath
              ∧ item_entries item = [VObj (<[ "path" := VStr urlPath ]> (own_props item))])
    as [->|(urlPath & E & Hentry)].
  { unfold item_entries.
    destruct (interpolate_item item) as [urlPath|e]; [right|by left].
    exists urlPath. by rewrite assign_path. }
  - done.
  - rewrite Hentry in *. apply Forall_cons in Hitem as [Hitem _].
    cbn [flat_map]. rewrite app_nil_r.
    apply (item_entries_literal _ urlPath).
    + apply lookup_insert_eq.
    + exact (interpolate_item_ok_slash _ _ E).
    + apply Hitem. by rewrite member_object, lookup_insert_eq.
Qed.

Lemma reducePages_function_idempotent_witness :
  ∃ entries,
    reducePages (PagesFunction Sample.all_items) [Sample.settings; Sample.about] = Ok entries
    ∧ reducePages (PagesFunction (λ _, entries)) [] = Ok entries.
Proof.
  eexists. split; [vm_compute; reflexivity|].
  eapply (reducePages_function_idempotent Sample.all_items [Sample.settings; Sample.about]).
  - vm_compute. reflexivity.
  - constructor; [|constructor]. intros p Hp. vm_compute in Hp.
    injection Hp as <-. reflexivity.
Defined.
